(** * SuperProcess: retrying task supervisor, metrics and registry

    A shallow embedding of [super_process.py].

    Modelling conventions.
    - Python [int] is [Z].  Python [float] is idealised as an exact rational
      [Q]: rounding, overflow, NaN and signed zeros are outside the model, so
      [0.1] is the rational 1/10 and [0.0] is [0].
    - A method that mutates [self] and may raise is a computation in a
      state-and-exception monad [M]: it maps the state before the call to an
      outcome ([Return v] or [Raise e]) and the state after it.  A raise keeps
      the mutations done before it, as in Python.
    - The task function is opaque.  Its behaviour is given by the outcome of
      its i-th invocation, and [time.time()] by the value of its i-th reading.
      The task does not touch the supervisor that runs it.
    - [with self._lock] is sequentially a no-op; interleavings of threads are
      not modelled.  Calls to the task, [time.sleep], [Thread.join] and the
      logger are recorded in an event trace. *)

From Stdlib Require Import ZArith QArith String List Lia.
From stdpp Require Import gmap strings.
From Equations Require Import Equations.

Open Scope Z_scope.

(** ** Python values, exceptions and outcomes *)

Inductive Value :=
| PyNone
| PyInt (z : Z)
| PyFloat (q : Q)
| PyStr (s : string).

(** The exception classes the module raises or the tests use, the message of
    the interpreter's [ZeroDivisionError] left out.  [UserError] is an instance of a class
    that the user derived from [Exception]; [truth] is what [bool()] gives
    for it, [False] when the class defines [__bool__] or [__len__] so.  The
    last two classes derive from [BaseException] only, so [except Exception]
    lets them pass. *)
Inductive PyException :=
| ZeroDivisionError
| ValueError (msg : string)
| RuntimeError (msg : string)
| UserError (msg : string) (truth : bool)
| KeyboardInterrupt
| SystemExit (code : Z).

Definition is_Exception (e : PyException) : bool :=
  match e with
  | KeyboardInterrupt | SystemExit _ => false
  | _ => true
  end.

(** [bool(e)]: an exception object is true unless its class says otherwise. *)
Definition truth_value (e : PyException) : bool :=
  match e with
  | UserError _ truth => truth
  | _ => true
  end.

Inductive Result (A : Type) :=
| Return (a : A)
| Raise (e : PyException).
Arguments Return {A} a.
Arguments Raise {A} e.

(** An outcome that the retry loop of [execute] answers with another attempt. *)
Definition retryable {A} (r : Result A) : bool :=
  match r with
  | Return _ => false
  | Raise e => is_Exception e
  end.

(** ** The state-and-exception monad *)

Definition M (S A : Type) : Type := S -> Result A * S.

Definition ret {S A} (a : A) : M S A := fun s => (Return a, s).

Definition bind {S A B} (m : M S A) (k : A -> M S B) : M S B :=
  fun s => match m s with
           | (Return a, s') => k a s'
           | (Raise e, s') => (Raise e, s')
           end.

Declare Scope py_scope.
Delimit Scope py_scope with py.
Notation "x <- m ;; k" := (bind m (fun x => k))
  (at level 100, m at next level, k at level 200, right associativity) : py_scope.
Notation "m ;; k" := (bind m (fun _ => k))
  (at level 100, k at level 200, right associativity) : py_scope.
Open Scope py_scope.

Definition raise {S A} (e : PyException) : M S A := fun s => (Raise e, s).

(** [try: m  except Exception as e: h e] *)
Definition try_except {S A} (m : M S A) (h : PyException -> M S A) : M S A :=
  fun s => match m s with
           | (Return a, s') => (Return a, s')
           | (Raise e, s') => if is_Exception e then h e s' else (Raise e, s')
           end.

Definition gets {S A} (f : S -> A) : M S A := fun s => (Return (f s), s).
Definition modify {S} (f : S -> S) : M S unit := fun s => (Return tt, f s).

(** [if b: c] *)
Definition when {S} (b : bool) (c : M S unit) : M S unit :=
  if b then c else ret tt.

(** ** Data model *)

Inductive ProcessState := IDLE | RUNNING | PAUSED | STOPPED | OPTIMIZING | ERROR.

(** [ProcessState.X.value] *)
Definition ProcessState_value (s : ProcessState) : string :=
  match s with
  | IDLE => "idle"
  | RUNNING => "running"
  | PAUSED => "paused"
  | STOPPED => "stopped"
  | OPTIMIZING => "optimizing"
  | ERROR => "error"
  end.

Record ProcessMetrics := mkProcessMetrics {
  execution_count : Z;
  total_runtime : Q;
  average_runtime : Q;
  success_count : Z;
  error_count : Z;
  optimization_level : Q;
  last_execution_time : Q;
  metadata : gmap string Value
}.

(** [ProcessMetrics()] *)
Definition ProcessMetrics_new : ProcessMetrics :=
  {| execution_count := 0; total_runtime := 0; average_runtime := 0;
     success_count := 0; error_count := 0; optimization_level := 1;
     last_execution_time := 0; metadata := ∅ |}.

(** The handle of the background thread of continuous mode. *)
Record Thread := mkThread { thread_interval : Q }.

Record SuperProcess := mkSuperProcess {
  name : string;
  process_function : nat -> Result Value;
  auto_optimize : bool;
  max_retries : Z;
  optimization_threshold : Q;
  state : ProcessState;
  metrics : ProcessMetrics;
  _stop_flag : bool;
  _pause_flag : bool;
  _thread : option Thread
}.

(** [SuperProcess.__init__] *)
Definition SuperProcess_new (name : string) (process_function : nat -> Result Value)
    (auto_optimize : bool) (max_retries : Z) (optimization_threshold : Q)
    : SuperProcess :=
  {| name := name; process_function := process_function;
     auto_optimize := auto_optimize; max_retries := max_retries;
     optimization_threshold := optimization_threshold;
     state := IDLE; metrics := ProcessMetrics_new;
     _stop_flag := false; _pause_flag := false; _thread := None |}.

Inductive Event :=
| EvInvoke (i : nat)
| EvSleep (seconds : Q)
| EvJoin (timeout : Q)
| EvThreadStart (interval : Q)
| EvLogError (e : PyException).

(** The supervisor together with its environment: how often the task was
    invoked and the clock was read, the clock itself, and the trace. *)
Record World := mkWorld {
  self : SuperProcess;
  invocations : nat;
  clock_reads : nat;
  clock : nat -> Q;
  events : list Event
}.

(** Field assignments. *)
Definition with_self (f : SuperProcess -> SuperProcess) (w : World) : World :=
  {| self := f (self w); invocations := invocations w;
     clock_reads := clock_reads w; clock := clock w; events := events w |}.

Definition with_metrics (f : ProcessMetrics -> ProcessMetrics) (p : SuperProcess)
    : SuperProcess :=
  {| name := name p; process_function := process_function p;
     auto_optimize := auto_optimize p; max_retries := max_retries p;
     optimization_threshold := optimization_threshold p;
     state := state p; metrics := f (metrics p);
     _stop_flag := _stop_flag p; _pause_flag := _pause_flag p;
     _thread := _thread p |}.

Definition with_state (st : ProcessState) (p : SuperProcess) : SuperProcess :=
  {| name := name p; process_function := process_function p;
     auto_optimize := auto_optimize p; max_retries := max_retries p;
     optimization_threshold := optimization_threshold p;
     state := st; metrics := metrics p;
     _stop_flag := _stop_flag p; _pause_flag := _pause_flag p;
     _thread := _thread p |}.

Definition with_stop_flag (b : bool) (p : SuperProcess) : SuperProcess :=
  {| name := name p; process_function := process_function p;
     auto_optimize := auto_optimize p; max_retries := max_retries p;
     optimization_threshold := optimization_threshold p;
     state := state p; metrics := metrics p;
     _stop_flag := b; _pause_flag := _pause_flag p;
     _thread := _thread p |}.

Definition with_pause_flag (b : bool) (p : SuperProcess) : SuperProcess :=
  {| name := name p; process_function := process_function p;
     auto_optimize := auto_optimize p; max_retries := max_retries p;
     optimization_threshold := optimization_threshold p;
     state := state p; metrics := metrics p;
     _stop_flag := _stop_flag p; _pause_flag := b;
     _thread := _thread p |}.

Definition with_thread (t : option Thread) (p : SuperProcess) : SuperProcess :=
  {| name := name p; process_function := process_function p;
     auto_optimize := auto_optimize p; max_retries := max_retries p;
     optimization_threshold := optimization_threshold p;
     state := state p; metrics := metrics p;
     _stop_flag := _stop_flag p; _pause_flag := _pause_flag p;
     _thread := t |}.

Definition log_event (ev : Event) (w : World) : World :=
  {| self := self w; invocations := invocations w;
     clock_reads := clock_reads w; clock := clock w;
     events := events w ++ [ev] |}.

(** ** Arithmetic that can raise *)

(** [x / n] for a float [x] and an int [n] *)
Definition truediv_float_int {S} (x : Q) (n : Z) : M S Q :=
  if n =? 0 then raise ZeroDivisionError
  else ret (x / inject_Z n)%Q.

(** [a / b] for two ints *)
Definition truediv_int_int {S} (a b : Z) : M S Q :=
  if b =? 0 then raise ZeroDivisionError
  else ret (inject_Z a / inject_Z b)%Q.

(** [x < y] on floats *)
Definition float_lt (x y : Q) : bool := negb (Qle_bool y x).

(** ** ProcessMetrics.update_execution *)

Definition set_execution_count (v : Z) (m : ProcessMetrics) : ProcessMetrics :=
  {| execution_count := v; total_runtime := total_runtime m;
     average_runtime := average_runtime m; success_count := success_count m;
     error_count := error_count m; optimization_level := optimization_level m;
     last_execution_time := last_execution_time m; metadata := metadata m |}.

Definition set_total_runtime (v : Q) (m : ProcessMetrics) : ProcessMetrics :=
  {| execution_count := execution_count m; total_runtime := v;
     average_runtime := average_runtime m; success_count := success_count m;
     error_count := error_count m; optimization_level := optimization_level m;
     last_execution_time := last_execution_time m; metadata := metadata m |}.

Definition set_average_runtime (v : Q) (m : ProcessMetrics) : ProcessMetrics :=
  {| execution_count := execution_count m; total_runtime := total_runtime m;
     average_runtime := v; success_count := success_count m;
     error_count := error_count m; optimization_level := optimization_level m;
     last_execution_time := last_execution_time m; metadata := metadata m |}.

Definition set_success_count (v : Z) (m : ProcessMetrics) : ProcessMetrics :=
  {| execution_count := execution_count m; total_runtime := total_runtime m;
     average_runtime := average_runtime m; success_count := v;
     error_count := error_count m; optimization_level := optimization_level m;
     last_execution_time := last_execution_time m; metadata := metadata m |}.

Definition set_error_count (v : Z) (m : ProcessMetrics) : ProcessMetrics :=
  {| execution_count := execution_count m; total_runtime := total_runtime m;
     average_runtime := average_runtime m; success_count := success_count m;
     error_count := v; optimization_level := optimization_level m;
     last_execution_time := last_execution_time m; metadata := metadata m |}.

Definition set_optimization_level (v : Q) (m : ProcessMetrics) : ProcessMetrics :=
  {| execution_count := execution_count m; total_runtime := total_runtime m;
     average_runtime := average_runtime m; success_count := success_count m;
     error_count := error_count m; optimization_level := v;
     last_execution_time := last_execution_time m; metadata := metadata m |}.

Definition set_last_execution_time (v : Q) (m : ProcessMetrics) : ProcessMetrics :=
  {| execution_count := execution_count m; total_runtime := total_runtime m;
     average_runtime := average_runtime m; success_count := success_count m;
     error_count := error_count m; optimization_level := optimization_level m;
     last_execution_time := v; metadata := metadata m |}.

(** The method on the metrics object itself. *)
Definition update_execution (runtime : Q) (success : bool) : M ProcessMetrics unit :=
  modify (fun m => set_execution_count (execution_count m + 1) m) ;;
  modify (fun m => set_total_runtime (total_runtime m + runtime) m) ;;
  total <- gets total_runtime ;;
  count <- gets execution_count ;;
  average <- truediv_float_int total count ;;
  modify (set_average_runtime average) ;;
  modify (set_last_execution_time runtime) ;;
  if success
  then modify (fun m => set_success_count (success_count m + 1) m)
  else modify (fun m => set_error_count (error_count m + 1) m).

(** Run a method of [self.metrics] from a method of the supervisor. *)
Definition on_metrics {A} (c : M ProcessMetrics A) : M World A :=
  fun w => let (r, m) := c (metrics (self w)) in
           (r, with_self (with_metrics (fun _ => m)) w).

(** ** Environment *)

(** [time.time()] *)
Definition time_time : M World Q :=
  fun w => (Return (clock w (clock_reads w)),
            {| self := self w; invocations := invocations w;
               clock_reads := S (clock_reads w); clock := clock w;
               events := events w |}).

(** [time.sleep(seconds)]: it refuses a negative length. *)
Definition time_sleep (seconds : Q) : M World unit :=
  if float_lt seconds 0
  then raise (ValueError "sleep length must be non-negative")
  else modify (log_event (EvSleep seconds)).

(** [self.process_function] applied to the arguments of [execute] *)
Definition call_process_function : M World Value :=
  fun w => (process_function (self w) (invocations w),
            {| self := self w; invocations := S (invocations w);
               clock_reads := clock_reads w; clock := clock w;
               events := events w ++ [EvInvoke (invocations w)] |}).

Definition set_state (st : ProcessState) : M World unit :=
  modify (with_self (with_state st)).

(** ** SuperProcess._should_optimize and SuperProcess._optimize *)

Definition _should_optimize : M World bool :=
  m <- gets (fun w => metrics (self w)) ;;
  if execution_count m <? 10 then ret false
  else
    success_rate <- truediv_int_int (success_count m) (execution_count m) ;;
    threshold <- gets (fun w => optimization_threshold (self w)) ;;
    ret (float_lt success_rate threshold).

Definition _optimize : M World unit :=
  previous_state <- gets (fun w => state (self w)) ;;
  set_state OPTIMIZING ;;
  modify (with_self (with_metrics
    (fun m => set_optimization_level (optimization_level m + 0.1)%Q m))) ;;
  set_state previous_state.

(** ** SuperProcess.execute *)

(** The body of the [try] block: one attempt. *)
Definition attempt : M World Value :=
  auto <- gets (fun w => auto_optimize (self w)) ;;
  needed <- (if auto then _should_optimize else ret false) ;;
  when needed _optimize ;;
  func_start_time <- time_time ;;
  result <- call_process_function ;;
  now <- time_time ;;
  let func_runtime := (now - func_start_time)%Q in
  on_metrics (update_execution func_runtime true) ;;
  set_state IDLE ;;
  ret result.

(** The code after the loop.  [if last_error:] tests the truth value of what
    was captured: [None] is false, and so is an exception whose [bool()] is
    [False]. *)
Definition retries_exhausted (last_error : option PyException) : M World Value :=
  match last_error with
  | Some e =>
      if truth_value e
      then
        on_metrics (update_execution 0 false) ;;
        set_state ERROR ;;
        raise e
      else ret PyNone
  | None => ret PyNone
  end.

(** [while retries < self.max_retries: ...].  Nothing in the loop assigns
    [self.max_retries], so it is read once. *)
Equations? retry_loop (max_retries retries : Z) (last_error : option PyException)
    : M World Value by wf (Z.to_nat (max_retries - retries)) lt :=
  retry_loop max_retries retries last_error with Z_lt_dec retries max_retries => {
    | left _ =>
        try_except attempt (fun e =>
          let retries' := retries + 1 in
          when (retries' <? max_retries)
            (time_sleep (0.1 * inject_Z retries')%Q) ;;
          retry_loop max_retries retries' (Some e))
    | right _ => retries_exhausted last_error }.
Proof. lia. Qed.

Definition execute : M World Value :=
  set_state RUNNING ;;
  max_retries <- gets (fun w => max_retries (self w)) ;;
  retry_loop max_retries 0 None.

(** ** Continuous mode and the control methods *)

(** [self._thread.join(timeout=5.0)]: returns when the thread has ended or the
    timeout has passed; it raises nothing for a started thread joined from
    another thread. *)
Definition thread_join (timeout : Q) : M World unit :=
  modify (log_event (EvJoin timeout)).

(** [logger.error(...)] *)
Definition logger_error (e : PyException) : M World unit :=
  modify (log_event (EvLogError e)).

(** [is_alive] stands for the answer of [self._thread.is_alive()], which is
    the scheduler's. *)
Definition start_continuous (is_alive : bool) (interval : Q) : M World unit :=
  thread <- gets (fun w => _thread (self w)) ;;
  process_name <- gets (fun w => name (self w)) ;;
  match thread with
  | Some _ =>
      if is_alive
      then raise (RuntimeError ("Process " ++ process_name ++ " is already running"))
      else ret tt
  | None => ret tt
  end ;;
  modify (with_self (with_stop_flag false)) ;;
  modify (with_self (with_pause_flag false)) ;;
  modify (with_self (with_thread (Some (mkThread interval)))) ;;
  modify (log_event (EvThreadStart interval)).

(** One turn of the loop of [_run_continuous]; the answer tells whether the
    loop goes on. *)
Definition run_continuous_cycle (interval : Q) : M World bool :=
  stop_requested <- gets (fun w => _stop_flag (self w)) ;;
  if stop_requested then ret false
  else
    paused <- gets (fun w => _pause_flag (self w)) ;;
    when (negb paused)
      (try_except (execute ;; ret tt) (fun e => logger_error e)) ;;
    time_sleep interval ;;
    ret true.

Definition pause : M World unit :=
  modify (with_self (with_pause_flag true)) ;;
  set_state PAUSED.

Definition resume : M World unit :=
  modify (with_self (with_pause_flag false)) ;;
  set_state RUNNING.

Definition stop : M World unit :=
  modify (with_self (with_stop_flag true)) ;;
  thread <- gets (fun w => _thread (self w)) ;;
  match thread with
  | Some _ => thread_join 5
  | None => ret tt
  end ;;
  set_state STOPPED.

Definition get_metrics : M World ProcessMetrics :=
  gets (fun w => metrics (self w)).

Definition get_state : M World ProcessState :=
  gets (fun w => state (self w)).

Definition reset_metrics : M World unit :=
  modify (with_self (with_metrics (fun _ => ProcessMetrics_new))).

(** ** SuperProcessManager *)

(** The registry at one instant: each name is bound to the current state of
    the supervisor object registered under it. *)
Record SuperProcessManager := mkSuperProcessManager {
  processes : gmap string SuperProcess
}.

(** [SuperProcessManager.__init__] *)
Definition SuperProcessManager_new : SuperProcessManager :=
  {| processes := ∅ |}.

Definition register (process : SuperProcess) : M SuperProcessManager unit :=
  registered <- gets processes ;;
  match registered !! name process with
  | Some _ => raise (ValueError ("Process " ++ name process ++ " already registered"))
  | None => ret tt
  end ;;
  modify (fun mgr => {| processes := <[name process := process]> (processes mgr) |}).

Definition get_process (process_name : string)
    : M SuperProcessManager (option SuperProcess) :=
  gets (fun mgr => processes mgr !! process_name).

(** One value of the inner dict of [get_summary]. *)
Record ProcessSummary := mkProcessSummary {
  summary_state : string;
  summary_executions : Z;
  summary_success_rate : Q
}.

Record Summary := mkSummary {
  total_processes : nat;
  summary_processes : gmap string ProcessSummary
}.

(** [{"state": ..., "executions": ..., "success_rate": ...}] for one process *)
Definition process_summary (proc : SuperProcess) : M SuperProcessManager ProcessSummary :=
  success_rate <-
    (if 0 <? execution_count (metrics proc)
     then truediv_int_int (success_count (metrics proc))
                          (execution_count (metrics proc))
     else ret 0%Q) ;;
  ret {| summary_state := ProcessState_value (state proc);
         summary_executions := execution_count (metrics proc);
         summary_success_rate := success_rate |}.

(** One step of the dict comprehension of [get_summary]: after the entries
    built so far, the entry of one more process. *)
Definition add_summary (process_name : string) (proc : SuperProcess)
    (acc : M SuperProcessManager (gmap string ProcessSummary))
    : M SuperProcessManager (gmap string ProcessSummary) :=
  done_so_far <- acc ;;
  entry <- process_summary proc ;;
  ret (<[process_name := entry]> done_so_far).

(** The entries are built one after the other, and the first one that raises
    ends the comprehension. *)
Definition get_summary : M SuperProcessManager Summary :=
  registered <- gets processes ;;
  entries <- map_fold add_summary (ret ∅) registered ;;
  ret {| total_processes := size registered; summary_processes := entries |}.

(** ** Operations on a supervisor *)

(** The state a method leaves behind, whether it returns or raises. *)
Definition after {S A} (c : M S A) (s : S) : S := snd (c s).

(** The methods of a supervisor and of its metrics.  The turns of the
    background loop are operations of their own: they interleave with the
    caller's, one whole method at a time. *)
Inductive Operation :=
| OpExecute
| OpStartContinuous (is_alive : bool) (interval : Q)
| OpRunContinuousCycle (interval : Q)
| OpPause
| OpResume
| OpStop
| OpGetMetrics
| OpGetState
| OpResetMetrics
| OpUpdateExecution (runtime : Q) (success : bool)
| OpShouldOptimize
| OpOptimize.

Definition perform (op : Operation) : World -> World :=
  match op with
  | OpExecute => after execute
  | OpStartContinuous is_alive interval => after (start_continuous is_alive interval)
  | OpRunContinuousCycle interval => after (run_continuous_cycle interval)
  | OpPause => after pause
  | OpResume => after resume
  | OpStop => after stop
  | OpGetMetrics => after get_metrics
  | OpGetState => after get_state
  | OpResetMetrics => after reset_metrics
  | OpUpdateExecution runtime success =>
      after (on_metrics (update_execution runtime success))
  | OpShouldOptimize => after _should_optimize
  | OpOptimize => after _optimize
  end.

Definition perform_all (ops : list Operation) (w : World) : World :=
  fold_left (fun w op => perform op w) ops w.

(** A supervisor just constructed, in an environment in which the task has
    not been invoked and the clock has not been read. *)
Definition World_new (process : SuperProcess) (clock : nat -> Q) : World :=
  {| self := process; invocations := 0; clock_reads := 0; clock := clock;
     events := [] |}.

(** ** The manager over objects *)

(** Python binds a name of the dict of the manager to the supervisor object
    itself: a call made through the object shows in the registry, and a
    supervisor that the manager stops is stopped for whoever holds it.  Here
    the supervisors live at addresses, each with its environment, and the
    dict binds names to addresses.  The registry above is the view of this
    one at an instant. *)
Module Store.

Record Program := mkProgram {
  objects : nat -> World;
  processes : gmap string nat
}.

Definition set_object (address : nat) (w : World) (prog : Program) : Program :=
  {| objects := fun a => if Nat.eqb a address then w else objects prog a;
     processes := processes prog |}.

(** A method called on the object at an address. *)
Definition on_object {A} (address : nat) (c : M World A) : M Program A :=
  fun prog => let (r, w) := c (objects prog address) in
              (r, set_object address w prog).

(** [SuperProcessManager.register] *)
Definition register (process : nat) : M Program unit :=
  process_name <- gets (fun prog => name (self (objects prog process))) ;;
  registered <- gets processes ;;
  match registered !! process_name with
  | Some _ => raise (ValueError ("Process " ++ process_name ++ " already registered"))
  | None => ret tt
  end ;;
  modify (fun prog => {| objects := objects prog;
                         processes := <[process_name := process]> (processes prog) |}).

(** [SuperProcessManager.unregister] *)
Definition unregister (process_name : string) : M Program unit :=
  registered <- gets processes ;;
  match registered !! process_name with
  | Some process =>
      on_object process stop ;;
      modify (fun prog => {| objects := objects prog;
                             processes := delete process_name (processes prog) |})
  | None => ret tt
  end.

(** [SuperProcessManager.get_process]: the object, or [None] *)
Definition get_process (process_name : string) : M Program (option nat) :=
  gets (fun prog => processes prog !! process_name).

(** [SuperProcessManager.get_all_metrics]: the metrics of each object as
    they are at the call *)
Definition get_all_metrics : M Program (gmap string ProcessMetrics) :=
  gets (fun prog => (fun process => metrics (self (objects prog process)))
                      <$> processes prog).

(** One step of the loop of [stop_all]. *)
Definition stop_next (process_name : string) (process : nat) (acc : M Program unit)
    : M Program unit :=
  acc ;; on_object process stop.

(** [SuperProcessManager.stop_all]: the loop goes through the dict in some
    order of its names. *)
Definition stop_all : M Program unit :=
  registered <- gets processes ;;
  map_fold stop_next (ret tt) registered.

(** The registry as it is at an instant: each name with the supervisor at
    the address it is bound to. *)
Definition snapshot (prog : Program) : SuperProcessManager :=
  mkSuperProcessManager ((fun process => self (objects prog process)) <$> processes prog).

(** The methods that the caller calls on an object it holds. *)
Definition perform_on (address : nat) (ops : list Operation) : M Program unit :=
  modify (fun prog => set_object address (perform_all ops (objects prog address)) prog).

End Store.

(** [SuperProcessManager.get_summary] over objects: it reads each object as
    it is at the call. *)
Definition get_summary_of_objects : M Store.Program Summary :=
  fun prog => (fst (get_summary (Store.snapshot prog)), prog).

(** * Vocabulary of the properties *)

(** The metrics after [update_execution] has run to its end. *)
Definition updated (runtime : Q) (success : bool) (m : ProcessMetrics)
    : ProcessMetrics :=
  {| execution_count := execution_count m + 1;
     total_runtime := (total_runtime m + runtime)%Q;
     average_runtime :=
       ((total_runtime m + runtime) / inject_Z (execution_count m + 1))%Q;
     success_count := if success then success_count m + 1 else success_count m;
     error_count := if success then error_count m else error_count m + 1;
     optimization_level := optimization_level m;
     last_execution_time := runtime;
     metadata := metadata m |}.

(** The invariant of the metrics of a supervisor. *)
Record metrics_invariant (m : ProcessMetrics) : Prop := {
  inv_counts : execution_count m = success_count m + error_count m;
  inv_success : 0 <= success_count m;
  inv_error : 0 <= error_count m;
  inv_average :
    0 < execution_count m ->
    average_runtime m = (total_runtime m / inject_Z (execution_count m))%Q
}.

Definition keeps_invariant {A} (c : M World A) : Prop :=
  forall w, metrics_invariant (metrics (self w)) ->
            metrics_invariant (metrics (self (snd (c w)))).

(** Whether an attempt starts with the optimization hook. *)
Definition optimization_due (p : SuperProcess) : bool :=
  auto_optimize p &&
  negb (execution_count (metrics p) <? 10) &&
  float_lt (inject_Z (success_count (metrics p)) /
            inject_Z (execution_count (metrics p)))%Q
           (optimization_threshold p).

Definition raise_level (p : SuperProcess) : SuperProcess :=
  with_metrics (fun m => set_optimization_level (optimization_level m + 0.1)%Q m) p.

(** The world when the task is about to be called. *)
Definition before_call (w : World) : World :=
  if optimization_due (self w) then with_self raise_level w else w.

(** The world after an attempt in which the task raised. *)
Definition after_raise (w : World) : World :=
  let w1 := before_call w in
  {| self := self w1; invocations := S (invocations w1);
     clock_reads := S (clock_reads w1); clock := clock w1;
     events := events w1 ++ [EvInvoke (invocations w1)] |}.

(** What the successful attempt measures: the difference of the two readings
    of the clock around the call. *)
Definition elapsed (w : World) : Q :=
  (clock w (S (clock_reads w)) - clock w (clock_reads w))%Q.

(** The world after an attempt in which the task returned. *)
Definition after_return (w : World) : World :=
  let w1 := before_call w in
  {| self := with_state IDLE (with_metrics (updated (elapsed w1) true) (self w1));
     invocations := S (invocations w1);
     clock_reads := S (S (clock_reads w1)); clock := clock w1;
     events := events w1 ++ [EvInvoke (invocations w1)] |}.

(** The world after a turn in which the task raised an [Exception]: the
    failed attempt, then the backoff when attempts remain. *)
Definition fail_step (max_retries retries : Z) (w : World) : World :=
  let w1 := after_raise w in
  if retries + 1 <? max_retries
  then log_event (EvSleep (0.1 * inject_Z (retries + 1))%Q) w1
  else w1.

(** The world after the code that follows the loop, when an error was
    captured and the metrics can be updated. *)
Definition after_exhausted (w : World) : World :=
  with_self (fun p => with_state ERROR (with_metrics (updated 0 false) p)) w.

(** A supervisor with its optimization level masked: two supervisors that
    agree on it differ at most in that level. *)
Definition level_erased (p : SuperProcess) : SuperProcess :=
  with_metrics (set_optimization_level 0) p.

Fixpoint fail_steps (j : nat) (max_retries retries : Z) (w : World) : World :=
  match j with
  | O => w
  | S j' => fail_steps j' max_retries (retries + 1) (fail_step max_retries retries w)
  end.

(** The events of [j] failed turns that start with [retries] failures behind
    them and the task invoked [i] times. *)
Fixpoint failure_trace (j : nat) (max_retries retries : Z) (i : nat) : list Event :=
  match j with
  | O => []
  | S j' =>
      EvInvoke i ::
      (if retries + 1 <? max_retries
       then [EvSleep (0.1 * inject_Z (retries + 1))%Q] else []) ++
      failure_trace j' max_retries (retries + 1) (S i)
  end.

Definition raised {A} (r : Result A) : option PyException :=
  match r with
  | Return _ => None
  | Raise e => Some e
  end.

(** [last_error] after [j] failed turns. *)
Definition captured (j : nat) (w : World) (last_error : option PyException)
    : option PyException :=
  match j with
  | O => last_error
  | S j' => raised (process_function (self w) (invocations w + j'))
  end.

(** The world in which the loop of [execute] starts. *)
Definition running (w : World) : World := with_self (with_state RUNNING) w.

(** The world in which the attempt after [j] failed ones calls the task. *)
Definition call_world (j : nat) (w : World) : World :=
  before_call (fail_steps j (max_retries (self w)) 0 (running w)).

(** [n] failed attempts, each followed by its backoff: the attempt numbered
    [attempt_number] invokes the task for the [i]-th time and is followed by
    a sleep of [0.1 * attempt_number] seconds. *)
Fixpoint backoff_trace (n : nat) (attempt_number : Z) (i : nat) : list Event :=
  match n with
  | O => []
  | S n' =>
      EvInvoke i :: EvSleep (0.1 * inject_Z attempt_number)%Q ::
      backoff_trace n' (attempt_number + 1) (S i)
  end.

(** The entry of one process, when nothing raises. *)
Definition summary_of (proc : SuperProcess) : ProcessSummary :=
  {| summary_state := ProcessState_value (state proc);
     summary_executions := execution_count (metrics proc);
     summary_success_rate :=
       if 0 <? execution_count (metrics proc)
       then (inject_Z (success_count (metrics proc)) /
             inject_Z (execution_count (metrics proc)))%Q
       else 0%Q |}.

(** The task raises nothing that [except Exception] lets pass. *)
Definition task_raises_exceptions_only (w : World) : Prop :=
  forall i e, process_function (self w) i = Raise e -> is_Exception e = true.

(** A method that, run with such a task, raises nothing that
    [except Exception] lets pass, and leaves the task what it was. *)
Definition raises_exceptions_only {A} (c : M World A) : Prop :=
  forall w,
    task_raises_exceptions_only w ->
    task_raises_exceptions_only (after c w) /\
    forall e, fst (c w) = Raise e -> is_Exception e = true.

(** A supervisor as [stop] leaves it. *)
Definition stopped_supervisor (p : SuperProcess) : SuperProcess :=
  with_state STOPPED (with_stop_flag true p).

(** What the loop of [stop_all] has done to the objects of [prog] when it
    has gone through the bindings [done]. *)
Definition stopped_so_far (prog : Store.Program) (r : M Store.Program unit)
    (done : gmap string nat) : Prop :=
  exists prog',
    r prog = (Return tt, prog') /\
    Store.processes prog' = Store.processes prog /\
    (forall process_name process,
       done !! process_name = Some process ->
       self (Store.objects prog' process) =
         stopped_supervisor (self (Store.objects prog process))) /\
    (forall address,
       self (Store.objects prog' address) = self (Store.objects prog address) \/
       self (Store.objects prog' address) =
         stopped_supervisor (self (Store.objects prog address))) /\
    (forall address,
       invocations (Store.objects prog' address) =
         invocations (Store.objects prog address)) /\
    (forall address,
       (forall process_name, done !! process_name <> Some address) ->
       Store.objects prog' address = Store.objects prog address).

(** The part of a supervisor that [execute] has no business with: its
    configuration, its flags and its thread. *)
Definition configuration (p : SuperProcess) : SuperProcess :=
  with_state IDLE (with_metrics (fun _ => ProcessMetrics_new) p).

(** A method that leaves the configuration and the clock as they are. *)
Definition keeps_configuration {A} (c : M World A) : Prop :=
  forall w,
    configuration (self (after c w)) = configuration (self w) /\
    clock (after c w) = clock w.

(** * The scenarios of the test suite *)

(** [simple_func] of [test_basic_execution] *)
Definition simple_func (i : nat) : Result Value := Return (PyInt 42).

(** [failing_func] of [test_retry_mechanism]: it raises on its first two
    invocations and returns on the third. *)
Definition failing_func (i : nat) : Result Value :=
  if (i <? 2)%nat then Raise (ValueError "Simulated failure")
  else Return (PyStr "success").

(** [always_fails] of [test_error_handling] *)
Definition always_fails (i : nat) : Result Value :=
  Raise (RuntimeError "Always fails").

(** A clock that advances by one second from one reading to the next. *)
Definition ticking (i : nat) : Q := inject_Z (Z.of_nat i).

Definition test_process : SuperProcess :=
  SuperProcess_new "test_process" simple_func true 3 0.8.

Definition retry_process : SuperProcess :=
  SuperProcess_new "retry_process" failing_func true 3 0.8.

Definition error_process : SuperProcess :=
  SuperProcess_new "error_process" always_fails true 2 0.8.

(** A supervisor constructed with [max_retries=0]. *)
Definition no_retry_process : SuperProcess :=
  SuperProcess_new "no_retry_process" simple_func true 0 0.8.

(** A task that always fails with an error of a class of the user's whose
    instances are false: [class QuietError(Exception)] with a [__bool__]
    that returns [False]. *)
Definition quietly_fails (i : nat) : Result Value :=
  Raise (UserError "Quiet failure" false).

Definition quiet_process : SuperProcess :=
  SuperProcess_new "quiet_process" quietly_fails true 2 0.8.

(** A supervisor with twelve executions behind it, seven of them successes. *)
Definition struggling_process : SuperProcess :=
  with_metrics
    (fun m => set_success_count 7 (set_error_count 5 (set_execution_count 12 m)))
    test_process.

(** A registry with [test_process] registered. *)
Definition one_process_manager : SuperProcessManager :=
  after (register test_process) SuperProcessManager_new.

(** A task interrupted from the keyboard on its first invocation. *)
Definition interrupted (i : nat) : Result Value :=
  if (i <? 1)%nat then Raise KeyboardInterrupt else Return PyNone.

Definition interrupted_process : SuperProcess :=
  SuperProcess_new "interrupted_process" interrupted true 3 0.8.

(** [timed_func] of [test_metrics_tracking] *)
Definition timed_func (i : nat) : Result Value := Return (PyStr "done").

Definition metrics_process : SuperProcess :=
  SuperProcess_new "metrics_process" timed_func true 3 0.8.

(** A supervisor that was not doing well, with [failing_func] as its task. *)
Definition struggling_retry_process : SuperProcess :=
  with_metrics
    (fun m => set_success_count 7 (set_error_count 5 (set_execution_count 12 m)))
    retry_process.

(** The objects of [test_process_manager]: [proc1] at address 1 and [proc2]
    at address 2, in a store whose other addresses hold supervisors of no
    interest. *)
Definition test_objects (address : nat) : World :=
  match address with
  | 1%nat => World_new (SuperProcess_new "proc1" simple_func true 3 0.8) ticking
  | 2%nat => World_new (SuperProcess_new "proc2" timed_func true 3 0.8) ticking
  | _ => World_new test_process ticking
  end.

(** The manager of [test_process_manager] after both registrations. *)
Definition test_program : Store.Program :=
  after (Store.register 2)
    (after (Store.register 1) (Store.mkProgram test_objects ∅)).

(** [test_process_manager] after [process1.execute()]. *)
Definition test_program_running : Store.Program :=
  after (Store.perform_on 1 [OpExecute]) test_program.

(** * Properties *)

(** ** Metrics *)

Lemma float_lt_iff (x y : Q) : float_lt x y = true <-> (x < y)%Q.
Proof.
  unfold float_lt. rewrite negb_true_iff.
  split.
  - intros H. apply Qnot_le_lt. intros Hle.
    apply Qle_bool_iff in Hle. congruence.
  - intros H. destruct (Qle_bool y x) eqn:E; [| reflexivity].
    apply Qle_bool_iff in E. exfalso. exact (Qlt_not_le _ _ H E).
Qed.

Lemma update_execution_returns runtime success m :
  execution_count m + 1 <> 0 ->
  update_execution runtime success m = (Return tt, updated runtime success m).
Proof.
  intros Hne. apply Z.eqb_neq in Hne.
  unfold update_execution, bind, modify, gets, truediv_float_int; cbn.
  rewrite Hne; cbn.
  destruct success; reflexivity.
Qed.

(** With [execution_count = -1] the division raises after the first two
    assignments. *)
Lemma update_execution_raises runtime success m :
  execution_count m + 1 = 0 ->
  update_execution runtime success m =
    (Raise ZeroDivisionError,
     set_total_runtime (total_runtime m + runtime)%Q (set_execution_count 0 m)).
Proof.
  intros He.
  unfold update_execution, bind, modify, gets, truediv_float_int; cbn.
  rewrite He; cbn. reflexivity.
Qed.

Lemma Qplus_0_r_eq (x : Q) : (x + 0)%Q = x.
Proof.
  destruct x as [n d]. unfold Qplus; cbn.
  rewrite Z.mul_1_r, Z.add_0_r, Pos.mul_1_r. reflexivity.
Qed.

Lemma metrics_invariant_new : metrics_invariant ProcessMetrics_new.
Proof. split; cbn; lia. Qed.

Lemma metrics_invariant_updated runtime success m :
  metrics_invariant m -> metrics_invariant (updated runtime success m).
Proof.
  intros [Hc Hs He Ha]. split; destruct success; cbn; try lia; reflexivity.
Qed.

Lemma metrics_invariant_level v m :
  metrics_invariant m -> metrics_invariant (set_optimization_level v m).
Proof. intros [Hc Hs He Ha]. split; cbn; assumption. Qed.

Lemma metrics_invariant_count m :
  metrics_invariant m -> execution_count m + 1 <> 0.
Proof. intros [Hc Hs He _]. lia. Qed.

(** ** The retry loop, one turn at a time *)

Lemma retry_loop_step max_retries retries last_error :
  retry_loop max_retries retries last_error =
    if retries <? max_retries
    then try_except attempt (fun e =>
           when (retries + 1 <? max_retries)
             (time_sleep (0.1 * inject_Z (retries + 1))%Q) ;;
           retry_loop max_retries (retries + 1) (Some e))
    else retries_exhausted last_error.
Proof.
  rewrite retry_loop_equation_1.
  destruct (Z_lt_dec retries max_retries) as [Hlt | Hge];
    destruct (Z.ltb_spec retries max_retries); try lia; reflexivity.
Qed.

(** ** Every method keeps the invariant of the metrics *)

Lemma keeps_ret {A} (a : A) : keeps_invariant (ret a).
Proof. intros w H. exact H. Qed.

Lemma keeps_raise {A} e : keeps_invariant (@raise World A e).
Proof. intros w H. exact H. Qed.

Lemma keeps_gets {A} (f : World -> A) : keeps_invariant (gets f).
Proof. intros w H. exact H. Qed.

Lemma keeps_bind {A B} (c : M World A) (k : A -> M World B) :
  keeps_invariant c -> (forall a, keeps_invariant (k a)) ->
  keeps_invariant (bind c k).
Proof.
  intros Hc Hk w H. unfold bind. specialize (Hc w H).
  destruct (c w) as [[a | e] w']; cbn in *; [apply Hk; exact Hc | exact Hc].
Qed.

Lemma keeps_try_except {A} (c : M World A) (h : PyException -> M World A) :
  keeps_invariant c -> (forall e, keeps_invariant (h e)) ->
  keeps_invariant (try_except c h).
Proof.
  intros Hc Hh w H. unfold try_except. specialize (Hc w H).
  destruct (c w) as [[a | e] w']; cbn in *; [exact Hc |].
  destruct (is_Exception e); [apply Hh; exact Hc | exact Hc].
Qed.

Lemma keeps_when b (c : M World unit) :
  keeps_invariant c -> keeps_invariant (when b c).
Proof. intros Hc. destruct b; [exact Hc | apply keeps_ret]. Qed.

Lemma keeps_modify (f : World -> World) :
  (forall w, metrics (self (f w)) = metrics (self w)) ->
  keeps_invariant (modify f).
Proof. intros Hf w H. cbn. rewrite Hf. exact H. Qed.

Lemma keeps_set_state st : keeps_invariant (set_state st).
Proof. apply keeps_modify. reflexivity. Qed.

Lemma keeps_time_time : keeps_invariant time_time.
Proof. intros w H. exact H. Qed.

Lemma keeps_time_sleep d : keeps_invariant (time_sleep d).
Proof. intros w H. unfold time_sleep. destruct (float_lt d 0); exact H. Qed.

Lemma keeps_call_process_function : keeps_invariant call_process_function.
Proof. intros w H. exact H. Qed.

Lemma keeps_update_execution runtime success :
  keeps_invariant (on_metrics (update_execution runtime success)).
Proof.
  intros w H. unfold on_metrics.
  rewrite update_execution_returns by (apply metrics_invariant_count; exact H).
  cbn. apply metrics_invariant_updated. exact H.
Qed.

Lemma keeps_should_optimize : keeps_invariant _should_optimize.
Proof.
  intros w H. unfold _should_optimize, bind, gets, truediv_int_int; cbn.
  destruct (execution_count (metrics (self w)) <? 10); cbn; [exact H |].
  destruct (execution_count (metrics (self w)) =? 0); cbn; exact H.
Qed.

Lemma keeps_optimize : keeps_invariant _optimize.
Proof.
  intros w H. cbn. apply metrics_invariant_level. exact H.
Qed.

Create HintDb keeps.

#[local] Hint Resolve keeps_ret keeps_raise keeps_gets keeps_when keeps_set_state
  keeps_time_time keeps_time_sleep keeps_call_process_function
  keeps_update_execution keeps_should_optimize keeps_optimize : keeps.

Ltac keeps_step :=
  first [ solve [ auto with keeps ]
        | apply keeps_bind; [| intro ]
        | apply keeps_try_except; [| intro ]
        | apply keeps_modify; reflexivity
        | progress cbv zeta
        | match goal with
          | |- keeps_invariant (match ?t with _ => _ end) => destruct t
          end ].

Lemma keeps_attempt : keeps_invariant attempt.
Proof.
  unfold attempt. repeat keeps_step.
Qed.

Lemma keeps_retries_exhausted last_error :
  keeps_invariant (retries_exhausted last_error).
Proof. destruct last_error; cbn [retries_exhausted]; repeat keeps_step. Qed.

Lemma keeps_retry_loop max_retries retries last_error :
  keeps_invariant (retry_loop max_retries retries last_error).
Proof.
  remember (Z.to_nat (max_retries - retries)) as n eqn:Hn.
  revert retries last_error Hn.
  induction n as [| n IH]; intros retries last_error Hn;
    rewrite retry_loop_step;
    destruct (Z.ltb_spec retries max_retries); try lia;
    try apply keeps_retries_exhausted.
  apply keeps_try_except; [apply keeps_attempt | intro e].
  apply keeps_bind; [auto with keeps | intros _].
  apply IH. lia.
Qed.

Lemma keeps_execute : keeps_invariant execute.
Proof.
  unfold execute. repeat keeps_step. apply keeps_retry_loop.
Qed.

#[local] Hint Resolve keeps_execute : keeps.

Lemma keeps_start_continuous is_alive interval :
  keeps_invariant (start_continuous is_alive interval).
Proof.
  unfold start_continuous. repeat keeps_step.
Qed.

Lemma keeps_run_continuous_cycle interval :
  keeps_invariant (run_continuous_cycle interval).
Proof.
  unfold run_continuous_cycle, logger_error.
  repeat first [ keeps_step | apply keeps_when ].
Qed.

Lemma keeps_stop : keeps_invariant stop.
Proof.
  unfold stop, thread_join. repeat keeps_step.
Qed.

Lemma keeps_reset_metrics : keeps_invariant reset_metrics.
Proof. intros w _. cbn. apply metrics_invariant_new. Qed.

Lemma perform_keeps_invariant op w :
  metrics_invariant (metrics (self w)) ->
  metrics_invariant (metrics (self (perform op w))).
Proof.
  destruct op; cbn [perform]; unfold after.
  - apply keeps_execute.
  - apply keeps_start_continuous.
  - apply keeps_run_continuous_cycle.
  - revert w. change (keeps_invariant pause). unfold pause. repeat keeps_step.
  - revert w. change (keeps_invariant resume). unfold resume. repeat keeps_step.
  - apply keeps_stop.
  - intro H; exact H.
  - intro H; exact H.
  - apply keeps_reset_metrics.
  - apply keeps_update_execution.
  - apply keeps_should_optimize.
  - apply keeps_optimize.
Qed.

Lemma perform_all_keeps_invariant ops w :
  metrics_invariant (metrics (self w)) ->
  metrics_invariant (metrics (self (perform_all ops w))).
Proof.
  revert w. induction ops as [| op ops IH]; intros w H; cbn; [exact H |].
  apply IH, perform_keeps_invariant, H.
Qed.

(** C3: whatever methods are called on a supervisor since its construction,
    in whatever order and whatever the task and the clock do, its metrics
    satisfy [execution_count = success_count + error_count], and when
    [execution_count > 0] the stored [average_runtime] is
    [total_runtime / execution_count]. *)
Theorem metrics_invariant_always
    (process_name : string) (task : nat -> Result Value) (auto : bool)
    (retry_limit : Z) (threshold : Q) (clock : nat -> Q) (ops : list Operation) :
  let process := SuperProcess_new process_name task auto retry_limit threshold in
  let m := metrics (self (perform_all ops (World_new process clock))) in
  execution_count m = success_count m + error_count m /\
  (0 < execution_count m ->
   average_runtime m = (total_runtime m / inject_Z (execution_count m))%Q).
Proof.
  intros process m.
  assert (H : metrics_invariant m).
  { apply perform_all_keeps_invariant. cbn. apply metrics_invariant_new. }
  destruct H as [Hc _ _ Ha]. split; assumption.
Qed.

(** C3 at a concrete history: two calls of [execute] with a pause and a stop
    around them leave two executions, and the stored average is the total
    over two. *)
Lemma metrics_invariant_always_witness :
  let m := metrics (self (perform_all [OpExecute; OpPause; OpExecute; OpStop]
                            (World_new retry_process ticking))) in
  execution_count m = 2 /\
  average_runtime m = (total_runtime m / inject_Z 2)%Q.
Proof.
  destruct (metrics_invariant_always "retry_process" failing_func true 3 0.8 ticking
              [OpExecute; OpPause; OpExecute; OpStop]) as [Hcounts Haverage].
  split.
  - vm_compute. reflexivity.
  - apply Haverage. vm_compute. reflexivity.
Defined.

(** ** The optimization trigger and the optimization hook *)

(** C6: [_should_optimize] reads without writing and never raises; it answers
    [True] exactly when [execution_count >= 10] and
    [success_count / execution_count < optimization_threshold], so it answers
    [False] whenever [execution_count < 10]. *)
Theorem should_optimize_iff (w : World) :
  let m := metrics (self w) in
  exists answer : bool,
    _should_optimize w = (Return answer, w) /\
    (answer = true <->
       10 <= execution_count m /\
       (inject_Z (success_count m) / inject_Z (execution_count m)
          < optimization_threshold (self w))%Q) /\
    (execution_count m < 10 -> answer = false).
Proof.
  intros m. unfold _should_optimize, bind, gets, truediv_int_int; cbn.
  fold m. destruct (Z.ltb_spec (execution_count m) 10) as [Hlt | Hge].
  - exists false. split; [reflexivity |]. split; [| reflexivity].
    split; [discriminate | intros [H _]; lia].
  - destruct (Z.eqb_spec (execution_count m) 0) as [H0 | _]; [lia |]. cbn.
    eexists. split; [reflexivity |]. split.
    + rewrite float_lt_iff. split; [intros H; split; [lia | exact H] | intros [_ H]; exact H].
    + intros Hlt. lia.
Qed.

(** C6 at a supervisor with seven successes in twelve executions and threshold 0.8. *)
Lemma should_optimize_iff_witness :
  exists answer,
    _should_optimize (World_new struggling_process ticking) =
      (Return answer, World_new struggling_process ticking) /\
    answer = true.
Proof.
  destruct (should_optimize_iff (World_new struggling_process ticking))
    as (answer & Hrun & Hiff & _).
  exists answer. split; [exact Hrun |].
  apply Hiff. split; [cbn; lia | reflexivity].
Defined.

(** C10: [_optimize] returns without raising, adds [0.1] to
    [optimization_level], leaves the state of the supervisor as it found it,
    and changes no other field of the metrics, of the supervisor or of its
    environment. *)
Theorem optimize_frame (w : World) :
  let w' := after _optimize w in
  let m := metrics (self w) in
  let m' := metrics (self w') in
  fst (_optimize w) = Return tt /\
  optimization_level m' = (optimization_level m + 0.1)%Q /\
  state (self w') = state (self w) /\
  execution_count m' = execution_count m /\
  total_runtime m' = total_runtime m /\
  average_runtime m' = average_runtime m /\
  success_count m' = success_count m /\
  error_count m' = error_count m /\
  last_execution_time m' = last_execution_time m /\
  metadata m' = metadata m /\
  (name (self w') = name (self w) /\
   process_function (self w') = process_function (self w) /\
   auto_optimize (self w') = auto_optimize (self w) /\
   max_retries (self w') = max_retries (self w) /\
   optimization_threshold (self w') = optimization_threshold (self w) /\
   _stop_flag (self w') = _stop_flag (self w) /\
   _pause_flag (self w') = _pause_flag (self w) /\
   _thread (self w') = _thread (self w)) /\
  (invocations w' = invocations w /\ clock_reads w' = clock_reads w /\
   clock w' = clock w /\ events w' = events w).
Proof. cbn. repeat split. Qed.

(** ** One attempt *)

#[local] Arguments update_execution : simpl never.

Ltac attempt_cases :=
  unfold attempt, before_call, optimization_due, bind, gets; cbn;
  match goal with |- context [if ?auto then _should_optimize else _] =>
    destruct auto; cbn end;
  unfold _should_optimize, bind, gets, truediv_int_int; cbn;
  try match goal with |- context [?ec <? 10] =>
    destruct (Z.ltb_spec ec 10); cbn;
    [| destruct (Z.eqb_spec ec 0); [lia |]; cbn;
       match goal with |- context [float_lt ?x ?y] =>
         destruct (float_lt x y); cbn end ] end.

Lemma attempt_raise (w : World) (e : PyException) :
  process_function (self w) (invocations w) = Raise e ->
  attempt w = (Raise e, after_raise w).
Proof.
  intros Hpf. unfold after_raise.
  destruct w as [[nm pf auto mr thr st m sf pfl th] inv reads clk evs]; cbn in *.
  attempt_cases;
    unfold call_process_function; cbn; rewrite Hpf; reflexivity.
Qed.

Lemma attempt_return (w : World) (v : Value) :
  execution_count (metrics (self w)) + 1 <> 0 ->
  process_function (self w) (invocations w) = Return v ->
  attempt w = (Return v, after_return w).
Proof.
  intros Hec Hpf. unfold after_return, elapsed.
  destruct w as [[nm pf auto mr thr st m sf pfl th] inv reads clk evs]; cbn in *.
  attempt_cases;
    unfold call_process_function; cbn; rewrite Hpf; cbn;
    unfold on_metrics; cbn;
    rewrite update_execution_returns by (cbn; exact Hec); reflexivity.
Qed.

(** ** One turn of the retry loop *)

Lemma time_sleep_returns (seconds : Q) (w : World) :
  (0 <= seconds)%Q ->
  time_sleep seconds w = (Return tt, log_event (EvSleep seconds) w).
Proof.
  intros Hle. unfold time_sleep, float_lt.
  apply Qle_bool_iff in Hle. rewrite Hle. reflexivity.
Qed.

Lemma time_sleep_raises (seconds : Q) (w : World) :
  (seconds < 0)%Q ->
  time_sleep seconds w = (Raise (ValueError "sleep length must be non-negative"), w).
Proof.
  intros Hlt. unfold time_sleep.
  apply float_lt_iff in Hlt. rewrite Hlt. reflexivity.
Qed.

(** The backoff is never negative: the loop counts its failures from 0. *)
Lemma backoff_nonnegative (retries : Z) :
  0 <= retries -> (0 <= 0.1 * inject_Z (retries + 1))%Q.
Proof.
  intros Hle. apply Qmult_le_0_compat; [discriminate |].
  change 0%Q with (inject_Z 0). rewrite <- Zle_Qle. lia.
Qed.

Lemma retry_loop_retry max_retries retries last_error w e :
  0 <= retries ->
  retries < max_retries ->
  process_function (self w) (invocations w) = Raise e ->
  is_Exception e = true ->
  retry_loop max_retries retries last_error w =
    retry_loop max_retries (retries + 1) (Some e) (fail_step max_retries retries w).
Proof.
  intros Hle Hlt Hpf He. rewrite retry_loop_step.
  destruct (Z.ltb_spec retries max_retries); [| lia].
  unfold try_except. rewrite (attempt_raise _ _ Hpf), He.
  unfold fail_step, bind, when.
  destruct (retries + 1 <? max_retries); [| reflexivity].
  rewrite (time_sleep_returns _ _ (backoff_nonnegative _ Hle)). reflexivity.
Qed.

Lemma retry_loop_propagate max_retries retries last_error w e :
  retries < max_retries ->
  process_function (self w) (invocations w) = Raise e ->
  is_Exception e = false ->
  retry_loop max_retries retries last_error w = (Raise e, after_raise w).
Proof.
  intros Hlt Hpf He. rewrite retry_loop_step.
  destruct (Z.ltb_spec retries max_retries); [| lia].
  unfold try_except. rewrite (attempt_raise _ _ Hpf), He. reflexivity.
Qed.

Lemma retry_loop_return max_retries retries last_error w v :
  retries < max_retries ->
  execution_count (metrics (self w)) + 1 <> 0 ->
  process_function (self w) (invocations w) = Return v ->
  retry_loop max_retries retries last_error w = (Return v, after_return w).
Proof.
  intros Hlt Hec Hpf. rewrite retry_loop_step.
  destruct (Z.ltb_spec retries max_retries); [| lia].
  unfold try_except. rewrite (attempt_return _ _ Hec Hpf). reflexivity.
Qed.

Lemma retry_loop_exit max_retries retries last_error w :
  max_retries <= retries ->
  retry_loop max_retries retries last_error w = retries_exhausted last_error w.
Proof.
  intros Hge. rewrite retry_loop_step.
  destruct (Z.ltb_spec retries max_retries); [lia | reflexivity].
Qed.

Lemma retries_exhausted_raise e w :
  truth_value e = true ->
  execution_count (metrics (self w)) + 1 <> 0 ->
  retries_exhausted (Some e) w = (Raise e, after_exhausted w).
Proof.
  intros Htruth Hec. unfold retries_exhausted. rewrite Htruth.
  unfold bind, on_metrics.
  rewrite update_execution_returns by exact Hec.
  destruct w as [[nm pf auto mr thr st m sf pfl th] inv reads clk evs].
  reflexivity.
Qed.

(** An error whose truth value is [False] is lost: the code after the loop
    takes it for no error. *)
Lemma retries_exhausted_lost e w :
  truth_value e = false ->
  retries_exhausted (Some e) w = (Return PyNone, w).
Proof. intros Htruth. unfold retries_exhausted. rewrite Htruth. reflexivity. Qed.

(** ** What failed attempts leave unchanged *)

Lemma before_call_self w :
  level_erased (self (before_call w)) = level_erased (self w).
Proof.
  unfold before_call. destruct (optimization_due (self w)); reflexivity.
Qed.

Lemma before_call_env w :
  invocations (before_call w) = invocations w /\
  clock_reads (before_call w) = clock_reads w /\
  clock (before_call w) = clock w /\
  events (before_call w) = events w.
Proof.
  unfold before_call. destruct (optimization_due (self w)); repeat split.
Qed.

Lemma fail_step_self max_retries retries w :
  level_erased (self (fail_step max_retries retries w)) = level_erased (self w).
Proof.
  unfold fail_step, after_raise.
  destruct (retries + 1 <? max_retries); cbn; apply before_call_self.
Qed.

Lemma fail_step_env max_retries retries w :
  invocations (fail_step max_retries retries w) = S (invocations w) /\
  clock_reads (fail_step max_retries retries w) = S (clock_reads w) /\
  clock (fail_step max_retries retries w) = clock w.
Proof.
  destruct (before_call_env w) as (Hi & Hr & Hc & _).
  unfold fail_step, after_raise.
  destruct (retries + 1 <? max_retries); cbn; rewrite Hi, Hr, Hc; repeat split.
Qed.

Lemma fail_step_events max_retries retries w :
  events (fail_step max_retries retries w) =
    events w ++ EvInvoke (invocations w) ::
      (if retries + 1 <? max_retries
       then [EvSleep (0.1 * inject_Z (retries + 1))%Q] else []).
Proof.
  destruct (before_call_env w) as (Hi & _ & _ & He).
  unfold fail_step, after_raise.
  destruct (retries + 1 <? max_retries); cbn; rewrite Hi, He.
  - rewrite <- app_assoc. reflexivity.
  - reflexivity.
Qed.

(** ** Several failed turns in a row *)

Lemma retryable_raised {A} (r : Result A) :
  retryable r = true -> exists e, r = Raise e /\ is_Exception e = true.
Proof. destruct r as [a | e]; cbn; [discriminate | eauto]. Qed.

Lemma level_erased_process_function p p' :
  level_erased p' = level_erased p -> process_function p' = process_function p.
Proof. intros H. exact (f_equal process_function H). Qed.

Lemma fail_steps_self j : forall max_retries retries w,
  level_erased (self (fail_steps j max_retries retries w)) = level_erased (self w).
Proof.
  induction j as [| j IH]; intros max_retries retries w; cbn; [reflexivity |].
  rewrite IH. apply fail_step_self.
Qed.

Lemma fail_steps_env j : forall max_retries retries w,
  invocations (fail_steps j max_retries retries w) = (invocations w + j)%nat /\
  clock_reads (fail_steps j max_retries retries w) = (clock_reads w + j)%nat /\
  clock (fail_steps j max_retries retries w) = clock w.
Proof.
  induction j as [| j IH]; intros max_retries retries w; cbn.
  - rewrite !Nat.add_0_r. repeat split.
  - destruct (IH max_retries (retries + 1) (fail_step max_retries retries w))
      as (Hi & Hr & Hc).
    destruct (fail_step_env max_retries retries w) as (Hi1 & Hr1 & Hc1).
    rewrite Hi, Hr, Hc, Hi1, Hr1, Hc1. repeat split; lia.
Qed.

Lemma fail_steps_events j : forall max_retries retries w,
  events (fail_steps j max_retries retries w) =
    events w ++ failure_trace j max_retries retries (invocations w).
Proof.
  induction j as [| j IH]; intros max_retries retries w; cbn.
  - rewrite app_nil_r. reflexivity.
  - rewrite IH, fail_step_events.
    destruct (fail_step_env max_retries retries w) as (Hi1 & _).
    rewrite Hi1, <- app_assoc. reflexivity.
Qed.

Lemma retry_loop_fail_steps j : forall max_retries retries last_error w,
  0 <= retries ->
  retries + Z.of_nat j <= max_retries ->
  (forall i, (i < j)%nat ->
     retryable (process_function (self w) (invocations w + i)) = true) ->
  retry_loop max_retries retries last_error w =
    retry_loop max_retries (retries + Z.of_nat j) (captured j w last_error)
      (fail_steps j max_retries retries w).
Proof.
  induction j as [| j IH]; intros max_retries retries last_error w Hpos Hle Hfail.
  - cbn. rewrite Z.add_0_r. reflexivity.
  - destruct (retryable_raised _ (Hfail 0%nat ltac:(lia))) as (e & Hpf & He).
    rewrite Nat.add_0_r in Hpf.
    rewrite (retry_loop_retry _ _ _ _ e) by (lia || assumption).
    pose proof (fail_step_self max_retries retries w) as Hself.
    destruct (fail_step_env max_retries retries w) as (Hinv & _).
    rewrite IH.
    + cbn [fail_steps].
      replace (retries + 1 + Z.of_nat j) with (retries + Z.of_nat (S j)) by lia.
      f_equal. destruct j as [| j']; cbn [captured].
      * rewrite Nat.add_0_r, Hpf. reflexivity.
      * rewrite (level_erased_process_function _ _ Hself), Hinv.
        f_equal. f_equal. lia.
    + lia.
    + lia.
    + intros i Hi.
      rewrite (level_erased_process_function _ _ Hself), Hinv.
      replace (S (invocations w) + i)%nat with (invocations w + S i)%nat by lia.
      apply Hfail. lia.
Qed.

(** ** execute *)

Lemma execute_loop (w : World) :
  execute w = retry_loop (max_retries (self w)) 0 None (running w).
Proof. reflexivity. Qed.

Lemma level_erased_metrics p p' :
  level_erased p' = level_erased p ->
  let m := metrics p in
  let m' := metrics p' in
  execution_count m' = execution_count m /\
  total_runtime m' = total_runtime m /\
  average_runtime m' = average_runtime m /\
  success_count m' = success_count m /\
  error_count m' = error_count m /\
  last_execution_time m' = last_execution_time m /\
  metadata m' = metadata m.
Proof.
  intros H.
  pose proof (f_equal metrics H) as Hm. cbn in Hm.
  repeat split.
  - exact (f_equal execution_count Hm).
  - exact (f_equal total_runtime Hm).
  - exact (f_equal average_runtime Hm).
  - exact (f_equal success_count Hm).
  - exact (f_equal error_count Hm).
  - exact (f_equal last_execution_time Hm).
  - exact (f_equal metadata Hm).
Qed.

Lemma call_world_self j w :
  level_erased (self (call_world j w)) = level_erased (self (running w)).
Proof.
  unfold call_world. rewrite before_call_self. apply fail_steps_self.
Qed.

Lemma call_world_metrics j w :
  let m := metrics (self w) in
  let m' := metrics (self (call_world j w)) in
  execution_count m' = execution_count m /\
  total_runtime m' = total_runtime m /\
  average_runtime m' = average_runtime m /\
  success_count m' = success_count m /\
  error_count m' = error_count m /\
  last_execution_time m' = last_execution_time m /\
  metadata m' = metadata m.
Proof. exact (level_erased_metrics _ _ (call_world_self j w)). Qed.

Lemma call_world_env j w :
  invocations (call_world j w) = (invocations w + j)%nat /\
  clock_reads (call_world j w) = (clock_reads w + j)%nat /\
  clock (call_world j w) = clock w /\
  events (call_world j w) =
    events w ++ failure_trace j (max_retries (self w)) 0 (invocations w).
Proof.
  unfold call_world.
  destruct (before_call_env (fail_steps j (max_retries (self w)) 0 (running w)))
    as (Hi & Hr & Hc & He).
  destruct (fail_steps_env j (max_retries (self w)) 0 (running w))
    as (Hi' & Hr' & Hc').
  rewrite Hi, Hr, Hc, He, Hi', Hr', Hc', fail_steps_events. repeat split.
Qed.

(** The loop after [j] failed attempts, each answered with a retry. *)
Lemma execute_after_failures (w : World) (j : nat) :
  Z.of_nat j <= max_retries (self w) ->
  (forall i, (i < j)%nat ->
     retryable (process_function (self w) (invocations w + i)) = true) ->
  let w1 := fail_steps j (max_retries (self w)) 0 (running w) in
  execute w =
    retry_loop (max_retries (self w)) (Z.of_nat j) (captured j (running w) None) w1 /\
  process_function (self w1) = process_function (self w) /\
  invocations w1 = (invocations w + j)%nat /\
  execution_count (metrics (self w1)) = execution_count (metrics (self w)).
Proof.
  intros Hle Hfail w1.
  pose proof (fail_steps_self j (max_retries (self w)) 0 (running w)) as Hself.
  fold w1 in Hself.
  destruct (fail_steps_env j (max_retries (self w)) 0 (running w)) as (Hinv & _).
  fold w1 in Hinv.
  repeat split.
  - rewrite execute_loop.
    rewrite (retry_loop_fail_steps j) by (cbn; first [lia | assumption]). reflexivity.
  - exact (level_erased_process_function _ _ Hself).
  - exact Hinv.
  - exact (proj1 (level_erased_metrics _ _ Hself)).
Qed.

(** C1: when the first [k - 1] attempts of this call fail and attempt [k]
    succeeds, with [k <= max_retries], [execute] returns the value of that
    attempt after exactly [k] invocations of the task, leaves the state
    [IDLE], and updates the metrics once, as a success with the time measured
    around the successful call.  The execution count is taken not to be
    negative, as the invariant of the metrics has it: at [-1] the update
    itself would raise inside the [try] block. *)
Theorem execute_success_after_failures (w : World) (k : nat) (v : Value) :
  (1 <= k)%nat ->
  Z.of_nat k <= max_retries (self w) ->
  0 <= execution_count (metrics (self w)) ->
  (forall i, (i < k - 1)%nat ->
     retryable (process_function (self w) (invocations w + i)) = true) ->
  process_function (self w) (invocations w + (k - 1)) = Return v ->
  let w' := after execute w in
  let m := metrics (self w) in
  let m' := metrics (self w') in
  let start := (clock_reads w + (k - 1))%nat in
  let runtime := (clock w (S start) - clock w start)%Q in
  fst (execute w) = Return v /\
  invocations w' = (invocations w + k)%nat /\
  state (self w') = IDLE /\
  execution_count m' = execution_count m + 1 /\
  success_count m' = success_count m + 1 /\
  error_count m' = error_count m /\
  last_execution_time m' = runtime /\
  total_runtime m' = (total_runtime m + runtime)%Q /\
  average_runtime m' = (total_runtime m' / inject_Z (execution_count m'))%Q.
Proof.
  intros Hk Hle Hec Hfail Hok w' m m' start runtime.
  destruct (execute_after_failures w (k - 1)) as (Hexec & Hpf & Hinv & Hcount);
    [lia | exact Hfail |].
  assert (Hrun : execute w =
            (Return v, after_return (fail_steps (k - 1) (max_retries (self w)) 0 (running w)))).
  { rewrite Hexec. apply retry_loop_return.
    - lia.
    - rewrite Hcount. lia.
    - rewrite Hpf, Hinv. exact Hok. }
  subst w' m'. unfold after. rewrite Hrun. cbn [fst snd].
  unfold after_return.
  fold (call_world (k - 1) w).
  destruct (call_world_metrics (k - 1) w) as (Hc & Ht & _ & Hs & He & _).
  destruct (call_world_env (k - 1) w) as (Hi & Hr & Hclk & _).
  cbn. unfold elapsed. rewrite Hc, Ht, Hs, He, Hi, Hr, Hclk.
  repeat split. lia.
Qed.

(** C1 at [test_retry_mechanism], where the third attempt succeeds. *)
Lemma execute_success_after_failures_witness :
  fst (execute (World_new retry_process ticking)) = Return (PyStr "success") /\
  invocations (after execute (World_new retry_process ticking)) = 3%nat /\
  state (self (after execute (World_new retry_process ticking))) = IDLE /\
  execution_count (metrics (self (after execute (World_new retry_process ticking)))) = 1 /\
  last_execution_time (metrics (self (after execute (World_new retry_process ticking))))
    = (ticking 3 - ticking 2)%Q.
Proof.
  destruct (execute_success_after_failures
              (World_new retry_process ticking) 3 (PyStr "success"))
    as (Hresult & Hcalls & Hstate & Hcount & _ & _ & Hlast & _).
  - lia.
  - cbn. lia.
  - cbn. lia.
  - intros i Hi. destruct i as [| [| i]]; [reflexivity | reflexivity | lia].
  - reflexivity.
  - repeat split; assumption.
Defined.

(** X15: when all [max_retries >= 1] attempts of this call fail and the
    error of the last one has truth value [True], as every exception has
    whose class does not say otherwise, [execute] raises that error, leaves
    the state [ERROR], and updates the metrics once with
    [(0.0, success=False)]: one more execution, one more error, no more
    success, and a total runtime that is what it was.  The execution count is
    taken not to be negative, as the invariant of the metrics has it. *)
Theorem execute_failure_after_all_retries (w : World) (n : nat) (e : PyException) :
  (1 <= n)%nat ->
  max_retries (self w) = Z.of_nat n ->
  0 <= execution_count (metrics (self w)) ->
  (forall i, (i < n)%nat ->
     retryable (process_function (self w) (invocations w + i)) = true) ->
  process_function (self w) (invocations w + (n - 1)) = Raise e ->
  truth_value e = true ->
  let w' := after execute w in
  let m := metrics (self w) in
  let m' := metrics (self w') in
  fst (execute w) = Raise e /\
  invocations w' = (invocations w + n)%nat /\
  state (self w') = ERROR /\
  execution_count m' = execution_count m + 1 /\
  total_runtime m' = total_runtime m /\
  error_count m' = error_count m + 1 /\
  success_count m' = success_count m /\
  last_execution_time m' = 0%Q /\
  average_runtime m' = (total_runtime m / inject_Z (execution_count m + 1))%Q.
Proof.
  intros Hn Hmax Hec Hfail Hlast Htruth w' m m'.
  destruct (execute_after_failures w n) as (Hexec & Hpf & Hinv & Hcount);
    [lia | exact Hfail |].
  pose proof (fail_steps_self n (max_retries (self w)) 0 (running w)) as Hself.
  destruct (level_erased_metrics _ _ Hself) as (Hc & Ht & _ & Hs & He & _).
  cbn in Hc, Ht, Hs, He.
  assert (Hrun : execute w =
            (Raise e, after_exhausted (fail_steps n (max_retries (self w)) 0 (running w)))).
  { rewrite Hexec, retry_loop_exit by lia.
    destruct n as [| n']; [lia |]. cbn [captured].
    replace (S n' - 1)%nat with n' in Hlast by lia.
    change (process_function (self (running w)) (invocations (running w) + n'))
      with (process_function (self w) (invocations w + n')).
    rewrite Hlast. cbn [raised].
    apply retries_exhausted_raise; [exact Htruth |]. rewrite Hcount. lia. }
  subst w' m'. unfold after. rewrite Hrun. cbn [fst snd].
  cbn. rewrite Hinv, Hc, Ht, Hs, He, Qplus_0_r_eq.
  repeat split.
Qed.

(** X15 at [test_error_handling], where both attempts fail. *)
Lemma execute_failure_after_all_retries_witness :
  fst (execute (World_new error_process ticking)) = Raise (RuntimeError "Always fails") /\
  state (self (after execute (World_new error_process ticking))) = ERROR /\
  error_count (metrics (self (after execute (World_new error_process ticking)))) = 1 /\
  success_count (metrics (self (after execute (World_new error_process ticking)))) = 0 /\
  total_runtime (metrics (self (after execute (World_new error_process ticking)))) = 0%Q.
Proof.
  destruct (execute_failure_after_all_retries
              (World_new error_process ticking) 2 (RuntimeError "Always fails"))
    as (Hresult & _ & Hstate & _ & Htotal & Herrors & Hsuccess & _).
  - lia.
  - reflexivity.
  - cbn. lia.
  - intros i Hi. reflexivity.
  - reflexivity.
  - reflexivity.
  - repeat split; assumption.
Defined.

(** When the error of the last attempt has truth value [False], the code
    after the loop takes it for no error: nothing is recorded, nothing is
    raised, and the state stays [RUNNING]. *)
Lemma execute_failure_lost (w : World) (n : nat) (e : PyException) :
  (1 <= n)%nat ->
  max_retries (self w) = Z.of_nat n ->
  (forall i, (i < n)%nat ->
     retryable (process_function (self w) (invocations w + i)) = true) ->
  process_function (self w) (invocations w + (n - 1)) = Raise e ->
  truth_value e = false ->
  execute w =
    (Return PyNone, fail_steps n (max_retries (self w)) 0 (running w)).
Proof.
  intros Hn Hmax Hfail Hlast Htruth.
  destruct (execute_after_failures w n) as (Hexec & _); [lia | exact Hfail |].
  rewrite Hexec, retry_loop_exit by lia.
  destruct n as [| n']; [lia |]. cbn [captured].
  replace (S n' - 1)%nat with n' in Hlast by lia.
  change (process_function (self (running w)) (invocations (running w) + n'))
    with (process_function (self w) (invocations w + n')).
  rewrite Hlast. cbn [raised].
  apply retries_exhausted_lost, Htruth.
Qed.

(** C2: the failure path of [execute] tests the truth value of the captured
    error, not whether there is one.  A task that raises, on both of two
    attempts, an [Exception] whose [bool()] is [False] fails on all its
    attempts, and yet [execute] returns [None]: it raises nothing, records
    no execution and no error, and leaves the state [RUNNING]. *)
Theorem execute_loses_falsy_error :
  (forall i, retryable (process_function quiet_process i) = true) /\
  fst (execute (World_new quiet_process ticking)) = Return PyNone /\
  invocations (after execute (World_new quiet_process ticking)) = 2%nat /\
  state (self (after execute (World_new quiet_process ticking))) = RUNNING /\
  execution_count (metrics (self (after execute (World_new quiet_process ticking)))) = 0 /\
  error_count (metrics (self (after execute (World_new quiet_process ticking)))) = 0.
Proof.
  split; [intros i; reflexivity |].
  rewrite (execute_failure_lost (World_new quiet_process ticking) 2
             (UserError "Quiet failure" false));
    try reflexivity; [| lia].
  repeat split.
Qed.

(** ** Backoff *)

Lemma failure_trace_backoff j : forall max_retries retries i,
  retries + Z.of_nat j < max_retries ->
  failure_trace j max_retries retries i = backoff_trace j (retries + 1) i.
Proof.
  induction j as [| j IH]; intros max_retries retries i Hlt; cbn; [reflexivity |].
  destruct (Z.ltb_spec (retries + 1) max_retries); [| lia].
  cbn. rewrite IH by lia. reflexivity.
Qed.

Lemma events_after_return w :
  events (after_return w) = events w ++ [EvInvoke (invocations w)].
Proof.
  destruct (before_call_env w) as (Hi & _ & _ & He).
  unfold after_return. cbn. rewrite Hi, He. reflexivity.
Qed.

Lemma events_after_raise w :
  events (after_raise w) = events w ++ [EvInvoke (invocations w)].
Proof.
  destruct (before_call_env w) as (Hi & _ & _ & He).
  unfold after_raise. cbn. rewrite Hi, He. reflexivity.
Qed.

(** C5: in a call of [execute] that makes [k] attempts (the first [k - 1]
    fail and are retried; attempt [k] is the last one allowed, or it returns,
    or it raises past the loop), the trace of the call is: for each failed
    attempt [a < k] the invocation of the task and then a sleep of
    [0.1 * a] seconds, and after them the invocation of attempt [k], which no
    sleep follows.  The execution count is taken not to be negative, as the
    invariant of the metrics has it. *)
Theorem backoff_is_linear (w : World) (k : nat) :
  (1 <= k)%nat ->
  Z.of_nat k <= max_retries (self w) ->
  0 <= execution_count (metrics (self w)) ->
  (forall i, (i < k - 1)%nat ->
     retryable (process_function (self w) (invocations w + i)) = true) ->
  Z.of_nat k = max_retries (self w) \/
    retryable (process_function (self w) (invocations w + (k - 1))) = false ->
  events (after execute w) =
    events w ++ backoff_trace (k - 1) 1 (invocations w)
             ++ [EvInvoke (invocations w + (k - 1))].
Proof.
  intros Hk Hle Hec Hfail Hlast.
  destruct (execute_after_failures w (k - 1)) as (Hexec & Hpf & Hinv & Hcount);
    [lia | exact Hfail |].
  set (mr := max_retries (self w)) in *.
  set (w1 := fail_steps (k - 1) mr 0 (running w)) in *.
  assert (Hev : events w1 = events w ++ backoff_trace (k - 1) 1 (invocations w)).
  { unfold w1. rewrite fail_steps_events, failure_trace_backoff by lia.
    reflexivity. }
  unfold after. rewrite Hexec.
  destruct (process_function (self w) (invocations w + (k - 1))) as [v | e] eqn:Hout.
  - rewrite (retry_loop_return _ _ _ _ v); [| lia | lia | congruence].
    cbn [snd]. rewrite events_after_return, Hev, Hinv, <- app_assoc. reflexivity.
  - destruct (is_Exception e) eqn:He.
    + destruct Hlast as [Hlast | Hlast]; [| cbn in Hlast; congruence].
      rewrite (retry_loop_retry _ _ _ _ e); [| lia | lia | congruence | exact He].
      rewrite retry_loop_exit by lia.
      assert (Hstep : events (fail_step mr (Z.of_nat (k - 1)) w1) =
                events w ++ backoff_trace (k - 1) 1 (invocations w)
                         ++ [EvInvoke (invocations w + (k - 1))]).
      { unfold fail_step.
        destruct (Z.ltb_spec (Z.of_nat (k - 1) + 1) mr); [lia |].
        rewrite events_after_raise, Hev, Hinv, <- app_assoc. reflexivity. }
      destruct (truth_value e) eqn:Htruth.
      * rewrite retries_exhausted_raise.
        -- cbn [snd]. unfold after_exhausted. cbn [events with_self].
           exact Hstep.
        -- exact Htruth.
        -- pose proof (fail_step_self mr (Z.of_nat (k - 1)) w1) as Hself.
           rewrite (proj1 (level_erased_metrics _ _ Hself)). lia.
      * rewrite retries_exhausted_lost by exact Htruth.
        cbn [snd]. exact Hstep.
    + rewrite (retry_loop_propagate _ _ _ _ e); [| lia | congruence | exact He].
      cbn [snd]. rewrite events_after_raise, Hev, Hinv, <- app_assoc. reflexivity.
Qed.

(** C5 at [test_retry_mechanism]: sleeps of 0.1 and 0.2 seconds between the three attempts. *)
Lemma backoff_is_linear_witness :
  events (after execute (World_new retry_process ticking)) =
    [EvInvoke 0; EvSleep 0.1; EvInvoke 1; EvSleep 0.2; EvInvoke 2].
Proof.
  apply (backoff_is_linear (World_new retry_process ticking) 3).
  - lia.
  - cbn. lia.
  - cbn. lia.
  - intros i Hi. destruct i as [| [| i]]; [reflexivity | reflexivity | lia].
  - left. reflexivity.
Defined.

(** ** max_retries below 1 *)

Lemma execute_without_attempt (w : World) :
  max_retries (self w) <= 0 ->
  execute w = (Return PyNone, running w).
Proof.
  intros Hle. rewrite execute_loop, retry_loop_exit by lia. reflexivity.
Qed.

(** C4: a supervisor constructed with [max_retries=0] is accepted, and its
    [execute] returns [None] without raising and without invoking the task;
    it leaves the state [RUNNING] and the metrics untouched. *)
Theorem execute_zero_retries_neither :
  SuperProcess_new "no_retry_process" simple_func true 0 0.8 = no_retry_process /\
  fst (execute (World_new no_retry_process ticking)) = Return PyNone /\
  invocations (after execute (World_new no_retry_process ticking)) = 0%nat /\
  events (after execute (World_new no_retry_process ticking)) = [] /\
  state (self (after execute (World_new no_retry_process ticking))) = RUNNING /\
  metrics (self (after execute (World_new no_retry_process ticking))) = ProcessMetrics_new.
Proof.
  rewrite execute_without_attempt by (cbn; lia).
  repeat split.
Qed.

(** ** The registry *)

(** C7: [register] raises the error of a duplicate name (a [ValueError] that
    says the process is already registered) and leaves the registry as it was
    when the name of the process is bound; otherwise it returns, binds the
    name to the process and changes the binding of no other name. *)
Theorem register_duplicate_or_fresh (mgr : SuperProcessManager) (process : SuperProcess) :
  (is_Some (processes mgr !! name process) ->
   register process mgr =
     (Raise (ValueError ("Process " ++ name process ++ " already registered")), mgr)) /\
  (processes mgr !! name process = None ->
   exists mgr',
     register process mgr = (Return tt, mgr') /\
     processes mgr' !! name process = Some process /\
     forall other, other <> name process ->
       processes mgr' !! other = processes mgr !! other).
Proof.
  split.
  - intros [registered Hin].
    unfold register, bind, gets; cbn. rewrite Hin. reflexivity.
  - intros Hfresh.
    unfold register, bind, gets, modify; cbn. rewrite Hfresh. cbn.
    eexists. split; [reflexivity |]. cbn. split.
    + apply lookup_insert_eq.
    + intros other Hne. apply lookup_insert_ne. congruence.
Qed.

(** C7 at a registry holding [test_process], and the empty one. *)
Lemma register_duplicate_or_fresh_witness :
  register test_process one_process_manager =
    (Raise (ValueError "Process test_process already registered"),
     one_process_manager) /\
  exists mgr',
    register test_process SuperProcessManager_new = (Return tt, mgr') /\
    processes mgr' !! "test_process" = Some test_process.
Proof.
  split.
  - apply (proj1 (register_duplicate_or_fresh one_process_manager test_process)).
    exists test_process. reflexivity.
  - destruct (proj2 (register_duplicate_or_fresh SuperProcessManager_new test_process))
      as (mgr' & Hreg & Hlookup & _).
    + reflexivity.
    + exists mgr'. split; assumption.
Defined.

Lemma process_summary_returns proc mgr :
  process_summary proc mgr = (Return (summary_of proc), mgr).
Proof.
  unfold process_summary, summary_of, bind, truediv_int_int.
  destruct (Z.ltb_spec 0 (execution_count (metrics proc))) as [Hpos | Hle].
  - destruct (Z.eqb_spec (execution_count (metrics proc)) 0); [lia | reflexivity].
  - reflexivity.
Qed.

Lemma summary_entries_return (registered : gmap string SuperProcess) mgr :
  map_fold add_summary (ret ∅) registered mgr =
    (Return (summary_of <$> registered), mgr).
Proof.
  apply (map_fold_weak_ind
           (fun (r : M SuperProcessManager (gmap string ProcessSummary)) m =>
              r mgr = (Return (summary_of <$> m), mgr))).
  - rewrite fmap_empty. reflexivity.
  - intros process_name proc m r Hnone IH.
    unfold add_summary, bind. rewrite IH, process_summary_returns, fmap_insert.
    reflexivity.
Qed.

Lemma get_summary_returns mgr :
  get_summary mgr =
    (Return {| total_processes := size (processes mgr);
               summary_processes := summary_of <$> processes mgr |}, mgr).
Proof.
  unfold get_summary, bind, gets. rewrite summary_entries_return. reflexivity.
Qed.

(** C8: [get_summary] never raises and leaves the registry as it is.  For the
    empty registry it reports no process and an empty mapping.  For every
    registered process the reported success rate is [0] when its execution
    count is [0] (or below), and [success_count / execution_count]
    otherwise. *)
Theorem get_summary_total (mgr : SuperProcessManager) :
  get_summary SuperProcessManager_new =
    (Return {| total_processes := 0; summary_processes := ∅ |},
     SuperProcessManager_new) /\
  exists summary,
    get_summary mgr = (Return summary, mgr) /\
    total_processes summary = size (processes mgr) /\
    (forall process_name,
       processes mgr !! process_name = None ->
       summary_processes summary !! process_name = None) /\
    (forall process_name proc,
       processes mgr !! process_name = Some proc ->
       exists entry,
         summary_processes summary !! process_name = Some entry /\
         summary_state entry = ProcessState_value (state proc) /\
         summary_executions entry = execution_count (metrics proc) /\
         (execution_count (metrics proc) <= 0 ->
          summary_success_rate entry = 0%Q) /\
         (0 < execution_count (metrics proc) ->
          summary_success_rate entry =
            (inject_Z (success_count (metrics proc)) /
             inject_Z (execution_count (metrics proc)))%Q)).
Proof.
  split.
  - rewrite get_summary_returns. cbn. rewrite fmap_empty, map_size_empty.
    reflexivity.
  - eexists. split; [apply get_summary_returns |]. cbn.
    split; [reflexivity |]. split.
    + intros process_name Hnone. rewrite lookup_fmap, Hnone. reflexivity.
    + intros process_name proc Hsome. exists (summary_of proc).
      rewrite lookup_fmap, Hsome. cbn.
      repeat split.
      * intros Hle. destruct (Z.ltb_spec 0 (execution_count (metrics proc)));
          [lia | reflexivity].
      * intros Hpos. destruct (Z.ltb_spec 0 (execution_count (metrics proc)));
          [reflexivity | lia].
Qed.

(** C8 at a registry holding [test_process], which has not run. *)
Lemma get_summary_total_witness :
  exists summary entry,
    get_summary one_process_manager = (Return summary, one_process_manager) /\
    total_processes summary = 1%nat /\
    summary_processes summary !! "test_process" = Some entry /\
    summary_success_rate entry = 0%Q.
Proof.
  destruct (get_summary_total one_process_manager)
    as (_ & summary & Hrun & Htotal & _ & Hentries).
  destruct (Hentries "test_process" test_process eq_refl)
    as (entry & Hentry & _ & _ & Hzero & _).
  exists summary, entry. repeat split; try assumption.
  apply Hzero. cbn. lia.
Defined.

(** ** stop *)

(** C9, as the code has it: [stop] never raises and leaves the state
    [STOPPED]; so does a second call right after, which leaves the supervisor
    as the first call left it.  On a supervisor whose continuous mode was
    never started [stop] waits for nothing, and changes nothing but the state,
    which becomes [STOPPED], and the stop-request flag, which it sets. *)
Theorem stop_idempotent_total (w : World) :
  fst (stop w) = Return tt /\
  state (self (after stop w)) = STOPPED /\
  fst (stop (after stop w)) = Return tt /\
  state (self (after stop (after stop w))) = STOPPED /\
  self (after stop (after stop w)) = self (after stop w) /\
  (_thread (self w) = None ->
   after stop w = with_self (fun p => with_state STOPPED (with_stop_flag true p)) w).
Proof.
  destruct w as [[nm pf auto mr thr st m sf pfl th] inv reads clk evs].
  destruct th as [t |]; cbn; repeat split; discriminate.
Qed.

(** C9 at a supervisor just constructed. *)
Lemma stop_idempotent_total_witness :
  after stop (World_new test_process ticking) =
    with_self (fun p => with_state STOPPED (with_stop_flag true p))
      (World_new test_process ticking).
Proof.
  apply (stop_idempotent_total (World_new test_process ticking)). reflexivity.
Defined.

(** C9, as the claim has it, fails on a supervisor just constructed: its
    continuous mode was never started, and [stop] does more to it than set
    the state, it sets the stop-request flag as well. *)
Lemma stop_sets_stop_flag :
  _thread (self (World_new test_process ticking)) = None /\
  _stop_flag (self (World_new test_process ticking)) = false /\
  _stop_flag (self (after stop (World_new test_process ticking))) = true /\
  after stop (World_new test_process ticking) <>
    with_self (with_state STOPPED) (World_new test_process ticking).
Proof.
  repeat split. intros H.
  apply (f_equal (fun w => _stop_flag (self w))) in H. discriminate H.
Qed.

(** ** The assertions of the test suite, on the model *)

Example test_basic_execution :
  let w := after execute (World_new test_process ticking) in
  fst (execute (World_new test_process ticking)) = Return (PyInt 42) /\
  execution_count (metrics (self w)) = 1 /\
  success_count (metrics (self w)) = 1 /\
  state (self w) = IDLE.
Proof. vm_compute. repeat split. Qed.

Example test_retry_mechanism :
  fst (execute (World_new retry_process ticking)) = Return (PyStr "success") /\
  invocations (after execute (World_new retry_process ticking)) = 3%nat.
Proof. vm_compute. repeat split. Qed.

Example test_error_handling :
  let w := after execute (World_new error_process ticking) in
  fst (execute (World_new error_process ticking)) = Raise (RuntimeError "Always fails") /\
  state (self w) = ERROR /\
  error_count (metrics (self w)) = 1 /\
  success_count (metrics (self w)) = 0.
Proof. vm_compute. repeat split. Qed.

(** * Further properties of the supervisor *)

(** ** What execute can raise *)

Lemma only_ret {A} (a : A) : raises_exceptions_only (ret a).
Proof. intros w H. split; [exact H | discriminate]. Qed.

Lemma only_gets {A} (f : World -> A) : raises_exceptions_only (gets f).
Proof. intros w H. split; [exact H | discriminate]. Qed.

Lemma only_modify (f : World -> World) :
  (forall w, process_function (self (f w)) = process_function (self w)) ->
  raises_exceptions_only (modify f).
Proof.
  intros Hf w H. split; [| discriminate].
  unfold task_raises_exceptions_only, after. cbn. rewrite Hf. exact H.
Qed.

Lemma only_raise {A} e :
  is_Exception e = true -> raises_exceptions_only (@raise World A e).
Proof. intros He w H. split; [exact H |]. cbn. congruence. Qed.

Lemma only_bind {A B} (c : M World A) (k : A -> M World B) :
  raises_exceptions_only c -> (forall a, raises_exceptions_only (k a)) ->
  raises_exceptions_only (bind c k).
Proof.
  intros Hc Hk w H. destruct (Hc w H) as [Htask Hraise].
  unfold after, bind in *. destruct (c w) as [[a | e] w']; cbn in *.
  - apply Hk. exact Htask.
  - split; [exact Htask |].
    intros e0 He0. injection He0 as <-. apply Hraise. reflexivity.
Qed.

Lemma only_try_except {A} (c : M World A) (h : PyException -> M World A) :
  (forall w, task_raises_exceptions_only w ->
             task_raises_exceptions_only (after c w)) ->
  (forall e, is_Exception e = true -> raises_exceptions_only (h e)) ->
  (forall w e, task_raises_exceptions_only w ->
               fst (c w) = Raise e -> is_Exception e = true) ->
  raises_exceptions_only (try_except c h).
Proof.
  intros Hc Hh Hraise w H.
  specialize (Hc w H). specialize (Hraise w).
  unfold after, try_except in *. destruct (c w) as [[a | e] w']; cbn in *.
  - split; [exact Hc | discriminate].
  - rewrite (Hraise e H eq_refl). apply Hh; [apply (Hraise e H eq_refl) | exact Hc].
Qed.

Lemma only_when b (c : M World unit) :
  raises_exceptions_only c -> raises_exceptions_only (when b c).
Proof. intros Hc. destruct b; [exact Hc | apply only_ret]. Qed.

Lemma only_update_execution runtime success :
  raises_exceptions_only (on_metrics (update_execution runtime success)).
Proof.
  intros w H. unfold after, on_metrics.
  destruct (update_execution runtime success (metrics (self w))) as [r m] eqn:Hrun.
  cbn. split; [exact H |].
  intros e He. subst r.
  destruct (Z.eq_dec (execution_count (metrics (self w)) + 1) 0) as [Hz | Hnz].
  - rewrite update_execution_raises in Hrun by exact Hz.
    injection Hrun as <- _. reflexivity.
  - rewrite update_execution_returns in Hrun by exact Hnz. discriminate Hrun.
Qed.

Lemma only_should_optimize : raises_exceptions_only _should_optimize.
Proof.
  intros w H. unfold after, _should_optimize, bind, gets, truediv_int_int; cbn.
  destruct (Z.ltb_spec (execution_count (metrics (self w))) 10); cbn;
    [split; [exact H | discriminate] |].
  destruct (Z.eqb_spec (execution_count (metrics (self w))) 0); [lia |]; cbn.
  split; [exact H | discriminate].
Qed.


Lemma only_optimize : raises_exceptions_only _optimize.
Proof. intros w H. split; [exact H | discriminate]. Qed.

Lemma only_time_time : raises_exceptions_only time_time.
Proof. intros w H. split; [exact H | discriminate]. Qed.

Lemma only_call_process_function : raises_exceptions_only call_process_function.
Proof.
  intros w H. split; [exact H |].
  cbn. intros e He. exact (H _ _ He).
Qed.

Lemma only_time_sleep seconds : raises_exceptions_only (time_sleep seconds).
Proof.
  unfold time_sleep. destruct (float_lt seconds 0).
  - apply only_raise. reflexivity.
  - apply only_modify. reflexivity.
Qed.

Create HintDb only.

#[local] Hint Resolve only_ret only_gets only_when only_update_execution
  only_should_optimize only_optimize only_time_time only_time_sleep
  only_call_process_function : only.

Ltac only_step :=
  first [ solve [ auto with only ]
        | apply only_bind; [| intro ]
        | apply only_modify; reflexivity
        | progress cbv zeta
        | match goal with
          | |- raises_exceptions_only (match ?t with _ => _ end) => destruct t
          end ].

Lemma only_attempt : raises_exceptions_only attempt.
Proof. unfold attempt, set_state. repeat only_step. Qed.

Lemma only_retries_exhausted last_error :
  (forall e, last_error = Some e -> is_Exception e = true) ->
  raises_exceptions_only (retries_exhausted last_error).
Proof.
  intros Hlast. destruct last_error as [e |]; cbn [retries_exhausted].
  - destruct (truth_value e); [| apply only_ret].
    unfold set_state. repeat only_step. apply only_raise, Hlast. reflexivity.
  - apply only_ret.
Qed.

Lemma only_retry_loop max_retries retries last_error :
  (forall e, last_error = Some e -> is_Exception e = true) ->
  raises_exceptions_only (retry_loop max_retries retries last_error).
Proof.
  remember (Z.to_nat (max_retries - retries)) as n eqn:Hn.
  revert retries last_error Hn.
  induction n as [| n IH]; intros retries last_error Hn Hlast;
    rewrite retry_loop_step;
    destruct (Z.ltb_spec retries max_retries); try lia;
    try (apply only_retries_exhausted; exact Hlast).
  apply only_try_except.
  - intros w Hw. apply only_attempt, Hw.
  - intros e He. apply only_bind.
    + apply only_when, only_time_sleep.
    + intros _. apply IH; [lia |]. intros e' [= <-]. exact He.
  - intros w e Hw. apply only_attempt, Hw.
Qed.

Lemma only_execute : raises_exceptions_only execute.
Proof.
  unfold execute, set_state. repeat only_step.
  apply only_retry_loop. discriminate.
Qed.

(** ** Continuous mode *)

(** X1: [start_continuous] refuses with a [RuntimeError] that names the
    process, and changes nothing, when a thread exists and is alive.
    Otherwise it returns, clears the stop and the pause flag, keeps a new
    thread and starts it; it touches neither the state (which stays
    [STOPPED] after a [stop]) nor the metrics. *)
Theorem start_continuous_guard (w : World) (is_alive : bool) (interval : Q) :
  (is_Some (_thread (self w)) -> is_alive = true ->
   start_continuous is_alive interval w =
     (Raise (RuntimeError ("Process " ++ name (self w) ++ " is already running")), w)) /\
  (_thread (self w) = None \/ is_alive = false ->
   let w' := after (start_continuous is_alive interval) w in
   fst (start_continuous is_alive interval w) = Return tt /\
   _stop_flag (self w') = false /\
   _pause_flag (self w') = false /\
   _thread (self w') = Some (mkThread interval) /\
   state (self w') = state (self w) /\
   metrics (self w') = metrics (self w) /\
   invocations w' = invocations w /\
   events w' = events w ++ [EvThreadStart interval]).
Proof.
  destruct w as [[nm pf auto mr thr st m sf pfl th] inv reads clk evs].
  split.
  - intros [t Ht] ->. cbn in Ht. subst th. reflexivity.
  - intros Hfree. cbn in Hfree.
    destruct th as [t |]; destruct is_alive; cbn;
      try (repeat split; fail);
      destruct Hfree; discriminate.
Qed.

(** X1 at a supervisor just constructed, and at one whose thread is alive. *)
Lemma start_continuous_guard_witness :
  start_continuous true 1 (after (start_continuous false 1) (World_new test_process ticking)) =
    (Raise (RuntimeError "Process test_process is already running"),
     after (start_continuous false 1) (World_new test_process ticking)) /\
  _thread (self (after (start_continuous false 1) (World_new test_process ticking))) =
    Some (mkThread 1).
Proof.
  split.
  - apply (proj1 (start_continuous_guard
                    (after (start_continuous false 1) (World_new test_process ticking))
                    true 1)).
    + eexists. reflexivity.
    + reflexivity.
  - apply (proj2 (start_continuous_guard (World_new test_process ticking) false 1)).
    left. reflexivity.
Defined.

(** X2: [pause] and [resume] never raise, and of two calls in a row the
    later one decides: the pause flag and the state are those it sets.
    Neither touches the metrics, the stop flag, the thread, the task or the
    trace. *)
Theorem pause_resume_last_wins (w : World) :
  fst (pause w) = Return tt /\
  fst (resume w) = Return tt /\
  (_pause_flag (self (after pause w)) = true /\ state (self (after pause w)) = PAUSED) /\
  (_pause_flag (self (after resume w)) = false /\ state (self (after resume w)) = RUNNING) /\
  after pause (after pause w) = after pause w /\
  after resume (after resume w) = after resume w /\
  after resume (after pause w) = after resume w /\
  after pause (after resume w) = after pause w /\
  (metrics (self (after pause w)) = metrics (self w) /\
   _stop_flag (self (after pause w)) = _stop_flag (self w) /\
   _thread (self (after pause w)) = _thread (self w) /\
   invocations (after pause w) = invocations w /\
   events (after pause w) = events w) /\
  (metrics (self (after resume w)) = metrics (self w) /\
   _stop_flag (self (after resume w)) = _stop_flag (self w) /\
   _thread (self (after resume w)) = _thread (self w) /\
   invocations (after resume w) = invocations w /\
   events (after resume w) = events w).
Proof.
  destruct w as [[nm pf auto mr thr st m sf pfl th] inv reads clk evs].
  cbn. repeat split.
Qed.

(** A turn of the loop that finds the stop flag set. *)
Lemma cycle_stopped (w : World) (interval : Q) :
  _stop_flag (self w) = true ->
  run_continuous_cycle interval w = (Return false, w).
Proof.
  intros Hstop. unfold run_continuous_cycle, bind, gets. rewrite Hstop.
  reflexivity.
Qed.

(** A turn of the loop that finds the pause flag set: all it does is the
    sleep at the end of the turn. *)
Lemma cycle_paused (w : World) (interval : Q) :
  _stop_flag (self w) = false ->
  _pause_flag (self w) = true ->
  run_continuous_cycle interval w =
    match time_sleep interval w with
    | (Return _, w') => (Return true, w')
    | (Raise e, w') => (Raise e, w')
    end.
Proof.
  intros Hstop Hpause. unfold run_continuous_cycle, bind, gets, when, ret.
  rewrite Hstop, Hpause. cbn [negb].
  destruct (time_sleep interval w) as [[[] | e] w']; reflexivity.
Qed.



(** A turn of the loop with both flags clear: [execute], the log entry when
    it raised an [Exception], and then the sleep at the end of the turn. *)
Lemma cycle_running (w : World) (interval : Q) :
  _stop_flag (self w) = false ->
  _pause_flag (self w) = false ->
  run_continuous_cycle interval w =
    match execute w with
    | (Return _, w') =>
        match time_sleep interval w' with
        | (Return _, w2) => (Return true, w2)
        | (Raise e, w2) => (Raise e, w2)
        end
    | (Raise e, w') =>
        if is_Exception e
        then
          match time_sleep interval (log_event (EvLogError e) w') with
          | (Return _, w2) => (Return true, w2)
          | (Raise e2, w2) => (Raise e2, w2)
          end
        else (Raise e, w')
    end.
Proof.
  intros Hstop Hpause.
  unfold run_continuous_cycle, bind, gets, try_except, when, logger_error,
    modify, ret.
  rewrite Hstop, Hpause. cbn [negb].
  destruct (execute w) as [[v | e] w'].
  - destruct (time_sleep interval w') as [[[] | e2] w2]; reflexivity.
  - destruct (is_Exception e); [| reflexivity].
    destruct (time_sleep interval _) as [[[] | e2] w2]; reflexivity.
Qed.



(** ** The outcome of execute *)

Lemma level_erased_config p p' :
  level_erased p' = level_erased p ->
  name p' = name p /\
  process_function p' = process_function p /\
  auto_optimize p' = auto_optimize p /\
  max_retries p' = max_retries p /\
  optimization_threshold p' = optimization_threshold p /\
  state p' = state p /\
  _stop_flag p' = _stop_flag p /\
  _pause_flag p' = _pause_flag p /\
  _thread p' = _thread p.
Proof.
  intros H. repeat split.
  - exact (f_equal name H).
  - exact (f_equal process_function H).
  - exact (f_equal auto_optimize H).
  - exact (f_equal max_retries H).
  - exact (f_equal optimization_threshold H).
  - exact (f_equal state H).
  - exact (f_equal _stop_flag H).
  - exact (f_equal _pause_flag H).
  - exact (f_equal _thread H).
Qed.

(** Among [n >= 1] attempts there is a last one: the first that is not
    answered with a retry, or the [n]-th. *)
Lemma last_attempt_exists (f : nat -> bool) (n : nat) :
  (1 <= n)%nat ->
  exists k, (1 <= k <= n)%nat /\
            (forall i, (i < k - 1)%nat -> f i = true) /\
            (k = n \/ f (k - 1)%nat = false).
Proof.
  induction n as [| n IH]; [lia |]. intros _.
  destruct n as [| n'].
  - exists 1%nat. repeat split; [lia | lia | intros i Hi; lia | left; reflexivity].
  - destruct IH as (k & Hk & Hbefore & Hlast); [lia |].
    destruct (f (k - 1)%nat) eqn:Hf.
    + destruct Hlast as [-> | Hlast]; [| discriminate].
      exists (S (S n')). repeat split; [lia | lia | | left; reflexivity].
      intros i Hi. destruct (Nat.eq_dec i (S n' - 1)%nat) as [-> | Hne];
        [exact Hf | apply Hbefore; lia].
    + exists k. repeat split; [lia | lia | exact Hbefore | right; exact Hf].
Qed.

(** The ways in which a call of [execute] ends after [k] attempts. *)
Lemma execute_last_attempt (w : World) (k : nat) :
  (1 <= k)%nat ->
  Z.of_nat k <= max_retries (self w) ->
  (forall i, (i < k - 1)%nat ->
     retryable (process_function (self w) (invocations w + i)) = true) ->
  let mr := max_retries (self w) in
  let w1 := fail_steps (k - 1) mr 0 (running w) in
  match process_function (self w) (invocations w + (k - 1)) with
  | Return v =>
      0 <= execution_count (metrics (self w)) ->
      execute w = (Return v, after_return w1)
  | Raise e =>
      if is_Exception e
      then Z.of_nat k = mr ->
           0 <= execution_count (metrics (self w)) ->
           execute w =
             if truth_value e
             then (Raise e, after_exhausted (fail_step mr (Z.of_nat (k - 1)) w1))
             else (Return PyNone, fail_step mr (Z.of_nat (k - 1)) w1)
      else execute w = (Raise e, after_raise w1)
  end.
Proof.
  intros Hk Hle Hfail mr w1. subst mr w1.
  destruct (execute_after_failures w (k - 1)) as (Hexec & Hpf & Hinv & Hcount);
    [lia | exact Hfail |].
  destruct (process_function (self w) (invocations w + (k - 1))) as [v | e] eqn:Hout.
  - intros Hec. rewrite Hexec. apply retry_loop_return; [lia | lia | congruence].
  - destruct (is_Exception e) eqn:He.
    + intros Hlast Hec. rewrite Hexec.
      rewrite (retry_loop_retry _ _ _ _ e); [| lia | lia | congruence | exact He].
      rewrite retry_loop_exit by lia.
      destruct (truth_value e) eqn:Htruth;
        [| apply retries_exhausted_lost; exact Htruth].
      apply retries_exhausted_raise; [exact Htruth |].
      match goal with |- context [fail_step ?m ?r ?x] =>
        pose proof (fail_step_self m r x) as Hself end.
      rewrite (proj1 (level_erased_metrics _ _ Hself)). lia.
    + rewrite Hexec. apply retry_loop_propagate; [lia | congruence | exact He].
Qed.

Lemma fail_steps_state j max_retries retries w :
  state (self (before_call (fail_steps j max_retries retries w))) = state (self w).
Proof.
  pose proof (before_call_self (fail_steps j max_retries retries w)) as H1.
  pose proof (fail_steps_self j max_retries retries w) as H2.
  rewrite H2 in H1.
  exact (proj1 (proj2 (proj2 (proj2 (proj2 (proj2 (level_erased_config _ _ H1))))))).
Qed.

(** X5: with [max_retries >= 1], a call of [execute] invokes the task at
    least once and at most [max_retries] times, and every invocation but the
    last raised an [Exception].  The outcome of the call follows that of the
    last invocation.  When it returned, the call returns its value and leaves
    the state [IDLE].  When it raised an exception that [except Exception]
    lets pass, the call raises it and leaves the state [RUNNING].  When it
    raised an [Exception] (it is then the last attempt allowed), the call
    raises it and leaves the state [ERROR] if the truth value of the
    exception is [True]; if it is [False] the error is lost: the call returns
    [None] and leaves the state [RUNNING].  The execution count is taken not
    to be negative. *)
Theorem execute_outcome_is_last_invocation (w : World) :
  1 <= max_retries (self w) ->
  0 <= execution_count (metrics (self w)) ->
  exists k : nat,
    (1 <= k)%nat /\
    Z.of_nat k <= max_retries (self w) /\
    invocations (after execute w) = (invocations w + k)%nat /\
    (forall i, (i < k - 1)%nat ->
       retryable (process_function (self w) (invocations w + i)) = true) /\
    match process_function (self w) (invocations w + (k - 1)) with
    | Return v =>
        fst (execute w) = Return v /\
        state (self (after execute w)) = IDLE
    | Raise e =>
        if is_Exception e
        then
          Z.of_nat k = max_retries (self w) /\
          if truth_value e
          then fst (execute w) = Raise e /\
               state (self (after execute w)) = ERROR
          else fst (execute w) = Return PyNone /\
               state (self (after execute w)) = RUNNING
        else
          fst (execute w) = Raise e /\
          state (self (after execute w)) = RUNNING
    end.
Proof.
  intros Hmax Hec.
  destruct (last_attempt_exists
              (fun i => retryable (process_function (self w) (invocations w + i)))
              (Z.to_nat (max_retries (self w))))
    as (k & Hk & Hbefore & Hlast); [lia |].
  exists k.
  pose proof (execute_last_attempt w k ltac:(lia) ltac:(lia) Hbefore) as Hrun.
  cbv zeta in Hrun.
  destruct (fail_steps_env (k - 1) (max_retries (self w)) 0 (running w)) as (Hinv & _).
  cbn [running with_self invocations] in Hinv.
  split; [lia |]. split; [lia |].
  destruct (process_function (self w) (invocations w + (k - 1))) as [v | e] eqn:Hout.
  - unfold after. rewrite (Hrun Hec). cbn [fst snd].
    unfold after_return. cbn [invocations self state with_state].
    rewrite (proj1 (before_call_env _)), Hinv.
    repeat split; [lia | exact Hbefore].
  - destruct (is_Exception e) eqn:He.
    + assert (Hkmax : Z.of_nat k = max_retries (self w)).
      { destruct Hlast as [-> | Hlast]; [lia |].
        cbn in Hlast. congruence. }
      unfold after. rewrite (Hrun Hkmax Hec).
      destruct (truth_value e) eqn:Htruth; cbn [fst snd].
      * unfold after_exhausted. cbn [invocations self state with_self with_state].
        rewrite (proj1 (fail_step_env _ _ _)), Hinv.
        repeat split; [lia | exact Hbefore | exact Hkmax].
      * pose proof (fail_step_self (max_retries (self w)) (Z.of_nat (k - 1))
                      (fail_steps (k - 1) (max_retries (self w)) 0 (running w)))
          as Hself.
        rewrite (fail_steps_self (k - 1) (max_retries (self w)) 0 (running w))
          in Hself.
        pose proof (proj1 (proj2 (proj2 (proj2 (proj2 (proj2
                      (level_erased_config _ _ Hself))))))) as Hstate.
        rewrite (proj1 (fail_step_env _ _ _)), Hinv, Hstate.
        repeat split; [lia | exact Hbefore | exact Hkmax].
    + unfold after. rewrite Hrun. cbn [fst snd].
      unfold after_raise. cbn [invocations self].
      rewrite (proj1 (before_call_env _)), Hinv, fail_steps_state.
      repeat split; [lia | exact Hbefore].
Qed.

(** X5 at [test_error_handling]: two invocations, the error of the second,
    state [ERROR]. *)
Lemma execute_outcome_is_last_invocation_witness :
  exists k : nat,
    invocations (after execute (World_new error_process ticking)) = (0 + k)%nat /\
    fst (execute (World_new error_process ticking)) = always_fails (0 + (k - 1)) /\
    state (self (after execute (World_new error_process ticking))) = ERROR.
Proof.
  destruct (execute_outcome_is_last_invocation (World_new error_process ticking))
    as (k & _ & _ & Hinv & _ & Hresult).
  - cbn. lia.
  - cbn. lia.
  - exists k. cbn in Hresult. destruct Hresult as (_ & Hresult & Hstate).
    split; [exact Hinv |]. split; [exact Hresult | exact Hstate].
Defined.

(** X6: an exception of the task that [except Exception] lets pass (a
    [KeyboardInterrupt], a [SystemExit]) is not retried: [execute] raises it
    at once, after no sleep, records nothing in the metrics and leaves the
    state [RUNNING].  This holds after any number of failed attempts that
    were retried. *)
Theorem execute_lets_base_exception_pass (w : World) (k : nat) (e : PyException) :
  (1 <= k)%nat ->
  Z.of_nat k <= max_retries (self w) ->
  (forall i, (i < k - 1)%nat ->
     retryable (process_function (self w) (invocations w + i)) = true) ->
  process_function (self w) (invocations w + (k - 1)) = Raise e ->
  is_Exception e = false ->
  let w' := after execute w in
  let m := metrics (self w) in
  let m' := metrics (self w') in
  fst (execute w) = Raise e /\
  invocations w' = (invocations w + k)%nat /\
  state (self w') = RUNNING /\
  execution_count m' = execution_count m /\
  success_count m' = success_count m /\
  error_count m' = error_count m /\
  total_runtime m' = total_runtime m /\
  average_runtime m' = average_runtime m /\
  last_execution_time m' = last_execution_time m /\
  events w' = events w ++ backoff_trace (k - 1) 1 (invocations w)
                       ++ [EvInvoke (invocations w + (k - 1))].
Proof.
  intros Hk Hle Hfail Hout He w' m m'.
  pose proof (execute_last_attempt w k Hk Hle Hfail) as Hrun.
  cbv zeta in Hrun. rewrite Hout, He in Hrun.
  subst w' m'. unfold after. rewrite Hrun. cbn [fst snd].
  destruct (fail_steps_env (k - 1) (max_retries (self w)) 0 (running w)) as (Hinv & _).
  cbn [running with_self invocations] in Hinv.
  pose proof (fail_steps_state (k - 1) (max_retries (self w)) 0 (running w)) as Hst.
  destruct (call_world_metrics (k - 1) w) as (Hc & Ht & Ha & Hs & Herr & Hl & _).
  destruct (call_world_env (k - 1) w) as (Hi & _).
  unfold call_world in Hc, Ht, Ha, Hs, Herr, Hl, Hi.
  rewrite events_after_raise, fail_steps_events, failure_trace_backoff by lia.
  unfold after_raise. cbn [invocations self].
  rewrite Hst, Hc, Ht, Ha, Hs, Herr, Hl, Hi, Hinv.
  cbn [running with_self events invocations self state with_state].
  rewrite <- app_assoc.
  repeat split. lia.
Qed.

(** X6 at a task interrupted on its first invocation. *)
Lemma execute_lets_base_exception_pass_witness :
  fst (execute (World_new interrupted_process ticking)) = Raise KeyboardInterrupt /\
  state (self (after execute (World_new interrupted_process ticking))) = RUNNING /\
  execution_count (metrics (self (after execute (World_new interrupted_process ticking)))) = 0.
Proof.
  destruct (execute_lets_base_exception_pass
              (World_new interrupted_process ticking) 1 KeyboardInterrupt)
    as (Hresult & _ & Hstate & Hcount & _).
  - lia.
  - cbn. lia.
  - intros i Hi. lia.
  - reflexivity.
  - reflexivity.
  - repeat split; assumption.
Defined.

(** ** Calls of execute in a row *)

(** A call whose first attempt succeeds. *)
Lemma execute_first_success (w : World) (v : Value) :
  1 <= max_retries (self w) ->
  0 <= execution_count (metrics (self w)) ->
  process_function (self w) (invocations w) = Return v ->
  let w' := after execute w in
  fst (execute w) = Return v /\
  (max_retries (self w') = max_retries (self w) /\
   process_function (self w') = process_function (self w)) /\
  (execution_count (metrics (self w')) = execution_count (metrics (self w)) + 1 /\
   success_count (metrics (self w')) = success_count (metrics (self w)) + 1 /\
   error_count (metrics (self w')) = error_count (metrics (self w))) /\
  invocations w' = S (invocations w) /\
  events w' = events w ++ [EvInvoke (invocations w)] /\
  state (self w') = IDLE.
Proof.
  intros Hmax Hec Hout w'.
  pose proof (execute_last_attempt w 1 ltac:(lia) ltac:(lia) ltac:(intros i Hi; lia))
    as Hrun.
  cbv zeta in Hrun. cbn [Nat.sub fail_steps] in Hrun.
  rewrite Nat.add_0_r, Hout in Hrun.
  subst w'. unfold after. rewrite (Hrun Hec). cbn [fst snd].
  pose proof (call_world_self 0 w) as Hself.
  destruct (level_erased_config _ _ Hself) as (_ & Hpf & _ & Hmr & _).
  destruct (call_world_metrics 0 w) as (Hc & _ & _ & Hs & Herr & _).
  destruct (call_world_env 0 w) as (Hi & _ & _ & Hev).
  unfold call_world in Hpf, Hmr, Hc, Hs, Herr, Hi, Hev.
  cbn [fail_steps failure_trace] in Hpf, Hmr, Hc, Hs, Herr, Hi, Hev.
  rewrite Nat.add_0_r in Hi. rewrite app_nil_r in Hev.
  unfold after_return.
  cbn [self invocations events metrics with_state with_metrics updated
       max_retries process_function execution_count success_count error_count state].
  rewrite Hpf, Hmr, Hc, Hs, Herr, Hi, Hev.
  repeat split.
Qed.

(** X7: when the task always returns, [n] calls of [execute] in a row add
    [n] to the execution count and to the success count and nothing to the
    error count; each call invokes the task exactly once and never sleeps;
    and the state after the last call is [IDLE].  ([max_retries >= 1], and
    the execution count is not negative to begin with.) *)
Theorem repeated_success_counts (n : nat) : forall w : World,
  1 <= max_retries (self w) ->
  0 <= execution_count (metrics (self w)) ->
  (forall i, exists v, process_function (self w) i = Return v) ->
  let w' := perform_all (repeat OpExecute n) w in
  execution_count (metrics (self w')) = execution_count (metrics (self w)) + Z.of_nat n /\
  success_count (metrics (self w')) = success_count (metrics (self w)) + Z.of_nat n /\
  error_count (metrics (self w')) = error_count (metrics (self w)) /\
  invocations w' = (invocations w + n)%nat /\
  events w' = events w ++ map EvInvoke (seq (invocations w) n) /\
  ((1 <= n)%nat -> state (self w') = IDLE).
Proof.
  induction n as [| n IH]; intros w Hmax Hec Htask; cbv zeta.
  - cbn. rewrite !Z.add_0_r, Nat.add_0_r, app_nil_r.
    repeat split. intros H. lia.
  - destruct (Htask (invocations w)) as [v Hout].
    destruct (execute_first_success w v Hmax Hec Hout)
      as (_ & (Hmr & Hpf) & (Hc & Hs & Herr) & Hinv & Hev & Hst).
    cbn [repeat perform_all fold_left perform].
    fold (perform_all (repeat OpExecute n) (after execute w)).
    destruct (IH (after execute w)) as (Hc' & Hs' & Herr' & Hinv' & Hev' & Hst').
    + rewrite Hmr. exact Hmax.
    + rewrite Hc. lia.
    + intros i. rewrite Hpf. apply Htask.
    + rewrite Hc', Hs', Herr', Hinv', Hev', Hc, Hs, Herr, Hinv, Hev.
      cbn [seq map]. rewrite <- app_assoc.
      repeat split; try lia.
      intros _. destruct n as [| n']; [exact Hst | apply Hst'; lia].
Qed.

(** X7 at [test_metrics_tracking]: five executions, five successes. *)
Lemma repeated_success_counts_witness :
  execution_count (metrics (self (perform_all (repeat OpExecute 5)
                                    (World_new metrics_process ticking)))) = 5 /\
  success_count (metrics (self (perform_all (repeat OpExecute 5)
                                  (World_new metrics_process ticking)))) = 5 /\
  error_count (metrics (self (perform_all (repeat OpExecute 5)
                                (World_new metrics_process ticking)))) = 0.
Proof.
  destruct (repeated_success_counts 5 (World_new metrics_process ticking))
    as (Hc & Hs & Herr & _).
  - cbn. lia.
  - cbn. lia.
  - intros i. eexists. reflexivity.
  - repeat split; assumption.
Defined.

(** ** The optimization hook inside execute *)

Lemma should_optimize_returns (w : World) :
  _should_optimize w =
    (Return (negb (execution_count (metrics (self w)) <? 10) &&
             float_lt (inject_Z (success_count (metrics (self w))) /
                       inject_Z (execution_count (metrics (self w))))%Q
                      (optimization_threshold (self w))), w).
Proof.
  unfold _should_optimize, bind, gets, truediv_int_int; cbn.
  destruct (Z.ltb_spec (execution_count (metrics (self w))) 10); cbn; [reflexivity |].
  destruct (Z.eqb_spec (execution_count (metrics (self w))) 0); [lia | reflexivity].
Qed.

Lemma optimization_due_iff (w : World) :
  optimization_due (self w) = true <->
  auto_optimize (self w) = true /\ fst (_should_optimize w) = Return true.
Proof.
  rewrite should_optimize_returns. cbn [fst]. unfold optimization_due.
  rewrite <- andb_assoc, andb_true_iff.
  split; intros [Hauto Hdue]; split; congruence.
Qed.

Lemma optimization_due_erased p p' :
  level_erased p' = level_erased p -> optimization_due p' = optimization_due p.
Proof.
  intros H. unfold optimization_due.
  destruct (level_erased_config _ _ H) as (_ & _ & -> & _ & -> & _).
  destruct (level_erased_metrics _ _ H) as (-> & _ & _ & -> & _).
  reflexivity.
Qed.

Lemma before_call_level w :
  optimization_level (metrics (self (before_call w))) =
    if optimization_due (self w)
    then (optimization_level (metrics (self w)) + 0.1)%Q
    else optimization_level (metrics (self w)).
Proof.
  unfold before_call. destruct (optimization_due (self w)); reflexivity.
Qed.

Lemma fail_step_level max_retries retries w :
  optimization_level (metrics (self (fail_step max_retries retries w))) =
    optimization_level (metrics (self (before_call w))).
Proof.
  unfold fail_step, after_raise. destruct (retries + 1 <? max_retries); reflexivity.
Qed.

Lemma fail_steps_level_due j : forall max_retries retries w,
  optimization_due (self w) = true ->
  optimization_level (metrics (self (fail_steps j max_retries retries w))) =
    Nat.iter j (fun level => (level + 0.1)%Q) (optimization_level (metrics (self w))).
Proof.
  induction j as [| j IH]; intros max_retries retries w Hdue; [reflexivity |].
  cbn [fail_steps]. rewrite IH.
  - rewrite fail_step_level, before_call_level, Hdue.
    rewrite Nat.iter_succ_r. reflexivity.
  - rewrite (optimization_due_erased _ _ (fail_step_self _ _ _)). exact Hdue.
Qed.

Lemma fail_steps_level_not_due j : forall max_retries retries w,
  optimization_due (self w) = false ->
  optimization_level (metrics (self (fail_steps j max_retries retries w))) =
    optimization_level (metrics (self w)).
Proof.
  induction j as [| j IH]; intros max_retries retries w Hdue; [reflexivity |].
  cbn [fail_steps]. rewrite IH.
  - rewrite fail_step_level, before_call_level, Hdue. reflexivity.
  - rewrite (optimization_due_erased _ _ (fail_step_self _ _ _)). exact Hdue.
Qed.

(** The level after a call of [execute] with [k] attempts is the level with
    which the last attempt calls the task. *)
Lemma execute_final_level (w : World) (k : nat) :
  (1 <= k)%nat ->
  Z.of_nat k <= max_retries (self w) ->
  0 <= execution_count (metrics (self w)) ->
  (forall i, (i < k - 1)%nat ->
     retryable (process_function (self w) (invocations w + i)) = true) ->
  Z.of_nat k = max_retries (self w) \/
    retryable (process_function (self w) (invocations w + (k - 1))) = false ->
  optimization_level (metrics (self (after execute w))) =
    optimization_level (metrics (self (call_world (k - 1) w))).
Proof.
  intros Hk Hle Hec Hfail Hlast.
  pose proof (execute_last_attempt w k Hk Hle Hfail) as Hrun.
  cbv zeta in Hrun. unfold after, call_world.
  destruct (process_function (self w) (invocations w + (k - 1))) as [v | e] eqn:Hout.
  - rewrite (Hrun Hec). reflexivity.
  - destruct (is_Exception e) eqn:He.
    + destruct Hlast as [Hlast | Hlast]; [| cbn in Hlast; congruence].
      rewrite (Hrun Hlast Hec).
      destruct (truth_value e); cbn [snd]; [| apply fail_step_level].
      unfold after_exhausted.
      cbn [self with_self metrics with_state with_metrics updated optimization_level].
      apply fail_step_level.
    + rewrite Hrun. reflexivity.
Qed.

(** X8: the optimization hook runs before every attempt, the failed ones
    included.  In a call of [execute] that makes [k] attempts, when
    [auto_optimize] is on and the trigger answers [True] the optimization
    level is raised [k] times, by one addition of [0.1] before each attempt:
    it ends as [(...((level + 0.1) + 0.1)...) + 0.1] with [k] additions;
    otherwise the call leaves it as it is.  (The execution count is taken not
    to be negative.) *)
Theorem optimize_before_every_attempt (w : World) (k : nat) :
  (1 <= k)%nat ->
  Z.of_nat k <= max_retries (self w) ->
  0 <= execution_count (metrics (self w)) ->
  (forall i, (i < k - 1)%nat ->
     retryable (process_function (self w) (invocations w + i)) = true) ->
  Z.of_nat k = max_retries (self w) \/
    retryable (process_function (self w) (invocations w + (k - 1))) = false ->
  let level := optimization_level (metrics (self w)) in
  let level' := optimization_level (metrics (self (after execute w))) in
  (auto_optimize (self w) = true -> fst (_should_optimize w) = Return true ->
   level' = Nat.iter k (fun level => (level + 0.1)%Q) level) /\
  (auto_optimize (self w) = false \/ fst (_should_optimize w) = Return false ->
   level' = level).
Proof.
  intros Hk Hle Hec Hfail Hlast level level'. subst level level'.
  rewrite (execute_final_level w k Hk Hle Hec Hfail Hlast).
  unfold call_world. rewrite before_call_level.
  rewrite (optimization_due_erased _ _ (fail_steps_self _ _ _ _)).
  change (optimization_due (self (running w))) with (optimization_due (self w)).
  split.
  - intros Hauto Hdue.
    assert (Htrue : optimization_due (self w) = true)
      by (apply optimization_due_iff; split; assumption).
    rewrite Htrue, fail_steps_level_due
      by (change (optimization_due (self (running w))) with (optimization_due (self w));
          exact Htrue).
    cbn [running with_self self with_state metrics].
    destruct k as [| k']; [lia |].
    replace (S k' - 1)%nat with k' by lia. reflexivity.
  - intros Hnot.
    assert (Hfalse : optimization_due (self w) = false).
    { destruct (optimization_due (self w)) eqn:Hdue; [| reflexivity].
      apply optimization_due_iff in Hdue. destruct Hdue as [Hauto Hdue].
      destruct Hnot; congruence. }
    rewrite Hfalse, fail_steps_level_not_due
      by (change (optimization_due (self (running w))) with (optimization_due (self w));
          exact Hfalse).
    reflexivity.
Qed.

(** X8 at a supervisor with seven successes in twelve executions, whose task
    succeeds at the third attempt: three additions to the level 1.0. *)
Lemma optimize_before_every_attempt_witness :
  optimization_level
    (metrics (self (after execute (World_new struggling_retry_process ticking)))) =
  (1 + 0.1 + 0.1 + 0.1)%Q.
Proof.
  destruct (optimize_before_every_attempt
              (World_new struggling_retry_process ticking) 3) as [Hdue _].
  - lia.
  - cbn. lia.
  - cbn. lia.
  - intros i Hi. destruct i as [| [| i]]; [reflexivity | reflexivity | lia].
  - left. reflexivity.
  - rewrite Hdue; reflexivity.
Defined.

(** X9: [reset_metrics] forgets the history and nothing else.  The metrics
    are those of a new supervisor, so the optimization trigger answers
    [False] until ten more executions; the state (an [ERROR] left by a
    failed call, say), the flags, the thread and the environment stay. *)
Theorem reset_metrics_forgets_history (w : World) :
  let w' := after reset_metrics w in
  fst (reset_metrics w) = Return tt /\
  fst (get_metrics w') = Return ProcessMetrics_new /\
  fst (_should_optimize w') = Return false /\
  state (self w') = state (self w) /\
  _stop_flag (self w') = _stop_flag (self w) /\
  _pause_flag (self w') = _pause_flag (self w) /\
  _thread (self w') = _thread (self w) /\
  max_retries (self w') = max_retries (self w) /\
  invocations w' = invocations w /\
  events w' = events w.
Proof. cbn. repeat split. Qed.

(** * Properties of the manager over objects *)

Lemma stop_self (w : World) :
  fst (stop w) = Return tt /\
  self (after stop w) = with_state STOPPED (with_stop_flag true (self w)) /\
  invocations (after stop w) = invocations w /\
  clock_reads (after stop w) = clock_reads w /\
  clock (after stop w) = clock w.
Proof.
  destruct w as [[nm pf auto mr thr st m sf pfl th] inv reads clk evs].
  destruct th; cbn; repeat split.
Qed.

Lemma on_object_stop (address : nat) (prog : Store.Program) :
  Store.on_object address stop prog =
    (Return tt, Store.set_object address (after stop (Store.objects prog address)) prog).
Proof.
  unfold Store.on_object, after.
  pose proof (proj1 (stop_self (Store.objects prog address))) as Hret.
  destruct (stop (Store.objects prog address)) as [r w]. cbn in *. subst r.
  reflexivity.
Qed.

Lemma unregister_bound (prog : Store.Program) (process_name : string) (process : nat) :
  Store.processes prog !! process_name = Some process ->
  Store.unregister process_name prog =
    (Return tt,
     {| Store.objects :=
          Store.objects
            (Store.set_object process (after stop (Store.objects prog process)) prog);
        Store.processes := delete process_name (Store.processes prog) |}).
Proof.
  intros Hsome. unfold Store.unregister, bind, gets. rewrite Hsome.
  rewrite on_object_stop. reflexivity.
Qed.

(** On the view of the program, registering an object is registering the
    supervisor at its address. *)
Lemma register_snapshot (prog : Store.Program) (process : nat) :
  fst (Store.register process prog) =
    fst (register (self (Store.objects prog process)) (Store.snapshot prog)) /\
  Store.snapshot (after (Store.register process) prog) =
    after (register (self (Store.objects prog process))) (Store.snapshot prog).
Proof.
  unfold after, Store.register, register, bind, gets, Store.snapshot.
  cbn [processes fst snd].
  rewrite lookup_fmap.
  destruct (Store.processes prog !! name (self (Store.objects prog process)))
    as [bound |]; cbn; [split; reflexivity |].
  rewrite fmap_insert. split; reflexivity.
Qed.

(** X10: [unregister] of a name that is not bound does nothing.  Of a bound
    name it stops the supervisor bound to it, and that supervisor only, and
    removes the binding, and that binding only; it never raises.  The
    supervisor is stopped for whoever still holds it. *)
Theorem unregister_stops_then_removes (prog : Store.Program) (process_name : string) :
  (Store.processes prog !! process_name = None ->
   Store.unregister process_name prog = (Return tt, prog)) /\
  (forall process,
     Store.processes prog !! process_name = Some process ->
     let prog' := after (Store.unregister process_name) prog in
     fst (Store.unregister process_name prog) = Return tt /\
     Store.processes prog' !! process_name = None /\
     (forall other, other <> process_name ->
        Store.processes prog' !! other = Store.processes prog !! other) /\
     Store.objects prog' process = after stop (Store.objects prog process) /\
     state (self (Store.objects prog' process)) = STOPPED /\
     (forall address, address <> process ->
        Store.objects prog' address = Store.objects prog address)).
Proof.
  split.
  - intros Hnone. unfold Store.unregister, bind, gets. rewrite Hnone. reflexivity.
  - intros process Hsome prog'. subst prog'.
    unfold after. rewrite (unregister_bound _ _ _ Hsome).
    cbn [fst snd Store.processes Store.objects Store.set_object].
    rewrite Nat.eqb_refl.
    repeat split.
    + apply lookup_delete_eq.
    + intros other Hne. apply lookup_delete_ne. congruence.
    + rewrite (proj1 (proj2 (stop_self _))). reflexivity.
    + intros address Hne. apply Nat.eqb_neq in Hne. rewrite Hne. reflexivity.
Qed.

(** X10 at [test_process_manager]: unregistering [proc1] stops it and leaves
    [proc2] registered and as it was. *)
Lemma unregister_stops_then_removes_witness :
  fst (Store.unregister "proc1" test_program) = Return tt /\
  Store.processes (after (Store.unregister "proc1") test_program) !! "proc1" = None /\
  Store.processes (after (Store.unregister "proc1") test_program) !! "proc2" = Some 2%nat /\
  state (self (Store.objects (after (Store.unregister "proc1") test_program) 1)) = STOPPED /\
  Store.objects (after (Store.unregister "proc1") test_program) 2 =
    Store.objects test_program 2.
Proof.
  destruct (proj2 (unregister_stops_then_removes test_program "proc1") 1%nat)
    as (Hret & Hgone & Hothers & _ & Hstopped & Hobjects).
  - reflexivity.
  - split; [exact Hret |]. split; [exact Hgone |].
    split; [rewrite Hothers by discriminate; reflexivity |].
    split; [exact Hstopped |].
    apply Hobjects. discriminate.
Defined.

Lemma register_fresh (prog : Store.Program) (process : nat) :
  Store.processes prog !! name (self (Store.objects prog process)) = None ->
  Store.register process prog =
    (Return tt,
     {| Store.objects := Store.objects prog;
        Store.processes :=
          <[name (self (Store.objects prog process)) := process]>
            (Store.processes prog) |}).
Proof.
  intros Hnone. unfold Store.register, bind, gets. rewrite Hnone. reflexivity.
Qed.

Lemma register_bound (prog : Store.Program) (process : nat) :
  is_Some (Store.processes prog !! name (self (Store.objects prog process))) ->
  Store.register process prog =
    (Raise (ValueError ("Process " ++ name (self (Store.objects prog process))
                          ++ " already registered")), prog).
Proof.
  intros [bound Hsome]. unfold Store.register, bind, gets. rewrite Hsome. reflexivity.
Qed.

(** X11: a name is taken while it is registered and free again after
    [unregister].  For a supervisor whose name is not bound: once it is
    registered, [get_process] answers with that very object and a second
    [register] raises; after [unregister] of its name the dict is what it
    was before and [register] succeeds again.  The supervisor itself is not
    what it was: [unregister] has left it [STOPPED]. *)
Theorem register_again_after_unregister (prog : Store.Program) (process : nat) :
  let process_name := name (self (Store.objects prog process)) in
  let registered := after (Store.register process) prog in
  let unregistered := after (Store.unregister process_name) registered in
  Store.processes prog !! process_name = None ->
  fst (Store.get_process process_name registered) = Return (Some process) /\
  fst (Store.register process registered) =
    Raise (ValueError ("Process " ++ process_name ++ " already registered")) /\
  Store.processes unregistered = Store.processes prog /\
  fst (Store.get_process process_name unregistered) = Return None /\
  fst (Store.register process unregistered) = Return tt /\
  state (self (Store.objects unregistered process)) = STOPPED.
Proof.
  intros process_name registered unregistered Hnone.
  subst unregistered registered. unfold after.
  rewrite (register_fresh _ _ Hnone). cbn [snd]. fold process_name.
  assert (Hbound :
    Store.processes
      {| Store.objects := Store.objects prog;
         Store.processes := <[process_name := process]> (Store.processes prog) |}
      !! process_name = Some process) by apply lookup_insert_eq.
  rewrite (unregister_bound _ _ _ Hbound).
  cbn [fst snd Store.processes Store.objects Store.set_object Store.get_process gets].
  rewrite (delete_insert_id _ _ _ Hnone), lookup_insert_eq, Hnone.
  repeat split.
  - rewrite register_bound; cbn [Store.objects Store.processes]; fold process_name.
    + reflexivity.
    + rewrite lookup_insert_eq. eexists. reflexivity.
  - rewrite register_fresh; [reflexivity |].
    cbn [Store.objects Store.processes]. rewrite Nat.eqb_refl.
    rewrite (proj1 (level_erased_config _ _
               (f_equal level_erased (proj1 (proj2 (stop_self _)))))).
    exact Hnone.
  - rewrite Nat.eqb_refl, (proj1 (proj2 (stop_self _))). reflexivity.
Qed.

(** X11 at a store in which nothing is registered. *)
Lemma register_again_after_unregister_witness :
  fst (Store.register 1 (after (Store.register 1) (Store.mkProgram test_objects ∅))) =
    Raise (ValueError "Process proc1 already registered") /\
  fst (Store.register 1
         (after (Store.unregister "proc1")
            (after (Store.register 1) (Store.mkProgram test_objects ∅)))) = Return tt.
Proof.
  destruct (register_again_after_unregister (Store.mkProgram test_objects ∅) 1)
    as (_ & Hdup & _ & _ & Hagain & _).
  - reflexivity.
  - split; [exact Hdup | exact Hagain].
Defined.

Lemma stopped_supervisor_twice p :
  stopped_supervisor (stopped_supervisor p) = stopped_supervisor p.
Proof. reflexivity. Qed.

Lemma stop_all_loop (prog : Store.Program) :
  stopped_so_far prog (map_fold Store.stop_next (ret tt) (Store.processes prog))
    (Store.processes prog).
Proof.
  apply (map_fold_weak_ind (stopped_so_far prog)).
  - exists prog. repeat split.
    + intros process_name process Hin. rewrite lookup_empty in Hin. discriminate.
    + intros address. left. reflexivity.
  - intros process_name process done r Hfresh
      (prog1 & Hrun & Hdict & Hdone & Heither & Hinv & Hrest).
    unfold stopped_so_far, Store.stop_next, bind. rewrite Hrun, on_object_stop.
    eexists. split; [reflexivity |].
    cbn [Store.processes Store.objects Store.set_object].
    assert (Hstopped :
      self (after stop (Store.objects prog1 process)) =
        stopped_supervisor (self (Store.objects prog process))).
    { rewrite (proj1 (proj2 (stop_self _))).
      fold (stopped_supervisor (self (Store.objects prog1 process))).
      destruct (Heither process) as [-> | ->]; reflexivity. }
    repeat split.
    + exact Hdict.
    + intros other address Hin.
      destruct (Nat.eqb_spec address process) as [-> | Hne]; [exact Hstopped |].
      destruct (decide (process_name = other)) as [-> | Hother].
      * rewrite lookup_insert_eq in Hin. congruence.
      * rewrite lookup_insert_ne in Hin by exact Hother. exact (Hdone _ _ Hin).
    + intros address.
      destruct (Nat.eqb_spec address process) as [-> | Hne];
        [right; exact Hstopped | apply Heither].
    + intros address.
      destruct (Nat.eqb_spec address process) as [-> | Hne]; [| apply Hinv].
      rewrite (proj1 (proj2 (proj2 (stop_self _)))). apply Hinv.
    + intros address Hunbound.
      destruct (Nat.eqb_spec address process) as [-> | Hne].
      * exfalso. apply (Hunbound process_name). apply lookup_insert_eq.
      * apply Hrest. intros other Hin. apply (Hunbound other).
        rewrite lookup_insert_ne; [exact Hin |]. congruence.
Qed.

(** X12: [stop_all] never raises and stops every registered supervisor: its
    state is [STOPPED] and its stop flag set.  It keeps the dict as it is,
    touches the metrics of no supervisor, invokes no task, and leaves the
    supervisors that are not registered as they are. *)
Theorem stop_all_stops_registered (prog : Store.Program) :
  let prog' := after Store.stop_all prog in
  fst (Store.stop_all prog) = Return tt /\
  Store.processes prog' = Store.processes prog /\
  (forall process_name process,
     Store.processes prog !! process_name = Some process ->
     state (self (Store.objects prog' process)) = STOPPED /\
     _stop_flag (self (Store.objects prog' process)) = true) /\
  (forall address,
     metrics (self (Store.objects prog' address)) =
       metrics (self (Store.objects prog address)) /\
     invocations (Store.objects prog' address) =
       invocations (Store.objects prog address)) /\
  (forall address,
     (forall process_name, Store.processes prog !! process_name <> Some address) ->
     Store.objects prog' address = Store.objects prog address).
Proof.
  destruct (stop_all_loop prog)
    as (prog1 & Hrun & Hdict & Hdone & Heither & Hinv & Hrest).
  assert (Hall : Store.stop_all prog = (Return tt, prog1)).
  { unfold Store.stop_all, bind, gets. exact Hrun. }
  cbv zeta. unfold after. rewrite Hall. cbn [fst snd].
  split; [reflexivity |]. split; [exact Hdict |]. split; [| split].
  - intros process_name process Hin. rewrite (Hdone _ _ Hin).
    split; reflexivity.
  - intros address. split; [| apply Hinv].
    destruct (Heither address) as [-> | ->]; reflexivity.
  - exact Hrest.
Qed.

(** X12 at [test_process_manager]. *)
Lemma stop_all_stops_registered_witness :
  state (self (Store.objects (after Store.stop_all test_program) 1)) = STOPPED /\
  state (self (Store.objects (after Store.stop_all test_program) 2)) = STOPPED /\
  Store.objects (after Store.stop_all test_program) 3 = Store.objects test_program 3.
Proof.
  destruct (stop_all_stops_registered test_program)
    as (_ & _ & Hstopped & _ & Hrest).
  split; [apply (Hstopped "proc1" 1%nat); reflexivity |].
  split; [apply (Hstopped "proc2" 2%nat); reflexivity |].
  apply Hrest. intros process_name Hin.
  assert (Hnames : forall address,
            Store.processes test_program !! process_name = Some address ->
            address = 1%nat \/ address = 2%nat).
  { intros address. unfold test_program, after.
    rewrite !register_fresh by reflexivity.
    cbn [snd Store.processes Store.objects test_objects World_new self
         SuperProcess_new name].
    destruct (decide (process_name = "proc2")) as [-> | H2];
      [rewrite lookup_insert_eq; intros [= <-]; right; reflexivity |].
    rewrite lookup_insert_ne by congruence.
    destruct (decide (process_name = "proc1")) as [-> | H1];
      [rewrite lookup_insert_eq; intros [= <-]; left; reflexivity |].
    rewrite lookup_insert_ne by congruence.
    rewrite lookup_empty. discriminate. }
  destruct (Hnames _ Hin); discriminate.
Defined.

Lemma get_summary_of_objects_returns (prog : Store.Program) :
  get_summary_of_objects prog =
    (Return {| total_processes := size (Store.processes prog);
               summary_processes :=
                 (fun process => summary_of (self (Store.objects prog process)))
                   <$> Store.processes prog |}, prog).
Proof.
  unfold get_summary_of_objects. rewrite get_summary_returns.
  unfold Store.snapshot. cbn [fst processes].
  rewrite map_size_fmap, <- map_fmap_compose. reflexivity.
Qed.

(** X13: the manager holds the supervisors themselves, not copies.  Whatever
    methods are called on a supervisor through the object, also after its
    registration, [get_summary] and [get_all_metrics] report it as those
    calls have left it; for the supervisors at other addresses they report
    what they reported before; and neither of the two raises or changes the
    program. *)
Theorem registry_reads_objects (prog : Store.Program) (address : nat)
    (ops : list Operation) :
  let prog' := after (Store.perform_on address ops) prog in
  let w' := perform_all ops (Store.objects prog address) in
  exists summary all_metrics,
    get_summary_of_objects prog' = (Return summary, prog') /\
    Store.get_all_metrics prog' = (Return all_metrics, prog') /\
    total_processes summary = size (Store.processes prog) /\
    (forall process_name,
       Store.processes prog !! process_name = Some address ->
       all_metrics !! process_name = Some (metrics (self w')) /\
       exists entry,
         summary_processes summary !! process_name = Some entry /\
         summary_executions entry = execution_count (metrics (self w')) /\
         summary_state entry = ProcessState_value (state (self w'))) /\
    (forall process_name other,
       Store.processes prog !! process_name = Some other ->
       other <> address ->
       all_metrics !! process_name = Some (metrics (self (Store.objects prog other))) /\
       exists entry,
         summary_processes summary !! process_name = Some entry /\
         summary_executions entry =
           execution_count (metrics (self (Store.objects prog other))) /\
         summary_state entry =
           ProcessState_value (state (self (Store.objects prog other)))).
Proof.
  intros prog' w'.
  eexists. eexists.
  split; [apply get_summary_of_objects_returns |].
  split; [reflexivity |].
  subst prog'. unfold after, Store.perform_on, modify.
  cbn [snd total_processes summary_processes Store.processes Store.objects
       Store.set_object].
  split; [reflexivity |]. split.
  - intros process_name Hin. rewrite !lookup_fmap, Hin. cbn [fmap option_fmap option_map].
    rewrite Nat.eqb_refl. fold w'.
    split; [reflexivity |]. eexists. split; [reflexivity |]. split; reflexivity.
  - intros process_name other Hin Hne. rewrite !lookup_fmap, Hin.
    cbn [fmap option_fmap option_map].
    apply Nat.eqb_neq in Hne. rewrite Hne.
    split; [reflexivity |]. eexists. split; [reflexivity |]. split; reflexivity.
Qed.

(** X13 at [test_process_manager]: after one execution of [proc1] and two of
    [proc2], made through the objects, the summary counts one and two. *)
Lemma registry_reads_objects_witness :
  exists summary entry1 entry2,
    fst (get_summary_of_objects
           (after (Store.perform_on 2 [OpExecute; OpExecute]) test_program_running))
      = Return summary /\
    total_processes summary = 2%nat /\
    summary_processes summary !! "proc1" = Some entry1 /\
    summary_executions entry1 = 1 /\
    summary_processes summary !! "proc2" = Some entry2 /\
    summary_executions entry2 = 2.
Proof.
  destruct (registry_reads_objects test_program_running 2 [OpExecute; OpExecute])
    as (summary & all_metrics & Hsummary & _ & Htotal & Hsame & Hother).
  destruct (Hsame "proc2" eq_refl) as (_ & entry2 & Hentry2 & Hcount2 & _).
  destruct (Hother "proc1" 1%nat eq_refl ltac:(discriminate))
    as (_ & entry1 & Hentry1 & Hcount1 & _).
  exists summary, entry1, entry2.
  split; [rewrite Hsummary; reflexivity |].
  split; [rewrite Htotal; reflexivity |].
  split; [exact Hentry1 |].
  split; [rewrite Hcount1; vm_compute; reflexivity |].
  split; [exact Hentry2 |].
  rewrite Hcount2. vm_compute. reflexivity.
Defined.

(** * What execute leaves alone *)

Lemma configuration_ret {A} (a : A) : keeps_configuration (ret a).
Proof. intros w. split; reflexivity. Qed.

Lemma configuration_raise {A} e : keeps_configuration (@raise World A e).
Proof. intros w. split; reflexivity. Qed.

Lemma configuration_gets {A} (f : World -> A) : keeps_configuration (gets f).
Proof. intros w. split; reflexivity. Qed.

Lemma configuration_modify (f : World -> World) :
  (forall w, configuration (self (f w)) = configuration (self w) /\
             clock (f w) = clock w) ->
  keeps_configuration (modify f).
Proof. intros Hf w. apply Hf. Qed.

Lemma configuration_bind {A B} (c : M World A) (k : A -> M World B) :
  keeps_configuration c -> (forall a, keeps_configuration (k a)) ->
  keeps_configuration (bind c k).
Proof.
  intros Hc Hk w. specialize (Hc w). unfold after, bind in *.
  destruct (c w) as [[a | e] w']; cbn [snd] in *; [| exact Hc].
  destruct (Hk a w') as [Hself Hclock]. unfold after in *.
  destruct Hc as [Hself' Hclock']. split; congruence.
Qed.

Lemma configuration_try_except {A} (c : M World A) (h : PyException -> M World A) :
  keeps_configuration c -> (forall e, keeps_configuration (h e)) ->
  keeps_configuration (try_except c h).
Proof.
  intros Hc Hh w. specialize (Hc w). unfold after, try_except in *.
  destruct (c w) as [[a | e] w']; cbn [snd] in *; [exact Hc |].
  destruct (is_Exception e); [| exact Hc].
  destruct (Hh e w') as [Hself Hclock]. unfold after in *.
  destruct Hc as [Hself' Hclock']. split; congruence.
Qed.

Lemma configuration_when b (c : M World unit) :
  keeps_configuration c -> keeps_configuration (when b c).
Proof. intros Hc. destruct b; [exact Hc | apply configuration_ret]. Qed.

Lemma configuration_on_metrics {A} (c : M ProcessMetrics A) :
  keeps_configuration (on_metrics c).
Proof.
  intros w. unfold after, on_metrics.
  destruct (c (metrics (self w))) as [r m]. split; reflexivity.
Qed.

Lemma configuration_set_state st : keeps_configuration (set_state st).
Proof. intros w. split; reflexivity. Qed.

Lemma configuration_time_time : keeps_configuration time_time.
Proof. intros w. split; reflexivity. Qed.

Lemma configuration_time_sleep d : keeps_configuration (time_sleep d).
Proof.
  intros w. unfold after, time_sleep.
  destruct (float_lt d 0); split; reflexivity.
Qed.

Lemma configuration_call : keeps_configuration call_process_function.
Proof. intros w. split; reflexivity. Qed.

Lemma configuration_should_optimize : keeps_configuration _should_optimize.
Proof. intros w. unfold after. rewrite should_optimize_returns. split; reflexivity. Qed.

Lemma configuration_optimize : keeps_configuration _optimize.
Proof. intros w. split; reflexivity. Qed.

Create HintDb configuration.

#[local] Hint Resolve configuration_ret configuration_raise configuration_gets
  configuration_when configuration_on_metrics configuration_set_state
  configuration_time_time configuration_time_sleep configuration_call
  configuration_should_optimize configuration_optimize : configuration.

Ltac configuration_step :=
  first [ solve [ auto with configuration ]
        | apply configuration_bind; [| intro ]
        | apply configuration_try_except; [| intro ]
        | progress cbv zeta
        | match goal with
          | |- keeps_configuration (match ?t with _ => _ end) => destruct t
          end ].

Lemma configuration_attempt : keeps_configuration attempt.
Proof. unfold attempt. repeat configuration_step. Qed.

Lemma configuration_retry_loop max_retries retries last_error :
  keeps_configuration (retry_loop max_retries retries last_error).
Proof.
  remember (Z.to_nat (max_retries - retries)) as n eqn:Hn.
  revert retries last_error Hn.
  induction n as [| n IH]; intros retries last_error Hn;
    rewrite retry_loop_step;
    destruct (Z.ltb_spec retries max_retries) as [Hlt | Hge]; try lia.
  - unfold retries_exhausted. repeat configuration_step.
  - apply configuration_try_except; [apply configuration_attempt | intro e].
    apply configuration_bind; [auto with configuration | intros _].
    apply IH. lia.
Qed.

(** X14: whatever the task does and however the call ends, [execute] leaves
    the configuration of the supervisor alone: its name, its task, the
    [auto_optimize] switch, [max_retries], the threshold, the stop and pause
    flags and the thread are after the call what they were before it. *)
Theorem execute_keeps_configuration (w : World) :
  let p := self w in
  let p' := self (after execute w) in
  name p' = name p /\
  process_function p' = process_function p /\
  auto_optimize p' = auto_optimize p /\
  max_retries p' = max_retries p /\
  optimization_threshold p' = optimization_threshold p /\
  _stop_flag p' = _stop_flag p /\
  _pause_flag p' = _pause_flag p /\
  _thread p' = _thread p.
Proof.
  assert (Hexecute : keeps_configuration execute).
  { unfold execute. repeat configuration_step. apply configuration_retry_loop. }
  destruct (Hexecute w) as [Hself _]. cbv zeta.
  repeat split.
  - exact (f_equal name Hself).
  - exact (f_equal process_function Hself).
  - exact (f_equal auto_optimize Hself).
  - exact (f_equal max_retries Hself).
  - exact (f_equal optimization_threshold Hself).
  - exact (f_equal _stop_flag Hself).
  - exact (f_equal _pause_flag Hself).
  - exact (f_equal _thread Hself).
Qed.
